(** * Follow graph and authorization policy of the user service

    A shallow embedding of
      - [src/api/v1/users/repositories/user.repository.ts]
        (the follow / unfollow transactions and the follow reads), and
      - the [authorizeUserAction] middleware,
    together with the properties the specification states about them.

    The MongoDB collection behind the Mongoose [User] model is a finite map
    from document ids to documents.  Every call on the model or on a session
    is a _storage call_: it is appended to a trace, and an oracle decides
    whether it throws (the store is unreachable, the transaction conflicts,
    an id cannot be cast, ...).  A session's transaction works on a private
    copy of the collection that replaces the committed one on commit and is
    dropped on abort; readers outside the session see the committed
    collection only, and what they could see after each call is recorded. *)

From Stdlib Require Import Ascii String.
From stdpp Require Import gmap strings list fin_maps.

Open Scope string_scope.

(** ** Documents *)

(** Modelled from the spec: the schema of [user.model], which is not among
    the sources.  These are the fields of a user document that the follow
    logic reads or writes; [followers] (who follows this user) and
    [following] (whom this user follows) are arrays of ids, as the store
    keeps them, and an absent array is the empty one. *)
Record UserDoc : Type := mkUserDoc {
  fullName : string;
  avatar : option string;
  followers : list string;
  following : list string
}.

Abbreviation Store := (gmap string UserDoc).

(** The lightweight summary of [IFollowUser] and the counts of
    [IFollowCount]. *)
Record IFollowUser : Type := mkFollowUser {
  fu_id : string;
  fu_fullName : string;
  fu_avatar : option string
}.

Record IFollowCount : Type := mkFollowCount {
  followerCount : nat;
  followingCount : nat
}.

(** The two array fields an update can name. *)
Inductive Field : Type := Followers | Following.

(** The update documents of the repository:
    [{ $addToSet: { fld: v } }] and [{ $pull: { fld: v } }]. *)
Inductive Update : Type :=
  | AddToSet (fld : Field) (v : string)
  | Pull (fld : Field) (v : string).

(** [$addToSet]: append the value unless the array already holds it. *)
Definition addToSet (v : string) (l : list string) : list string :=
  if decide (v ∈ l) then l else l ++ [v].

(** [$pull]: drop every occurrence of the value. *)
Definition pull (v : string) (l : list string) : list string :=
  filter (λ x, x ≠ v) l.

Definition getField (fld : Field) (u : UserDoc) : list string :=
  match fld with
  | Followers => followers u
  | Following => following u
  end.

Definition setField (fld : Field) (l : list string) (u : UserDoc) : UserDoc :=
  match fld with
  | Followers => mkUserDoc (fullName u) (avatar u) l (following u)
  | Following => mkUserDoc (fullName u) (avatar u) (followers u) l
  end.

Definition applyUpdate (upd : Update) (u : UserDoc) : UserDoc :=
  match upd with
  | AddToSet fld v => setField fld (addToSet v (getField fld u)) u
  | Pull fld v => setField fld (pull v (getField fld u)) u
  end.

(** What [findByIdAndUpdate] does to a collection: the document with that id
    is updated in place; when no document has the id nothing is written and
    nothing is raised (there is no upsert). *)
Definition updateById (id : string) (upd : Update) (db : Store) : Store :=
  alter (applyUpdate upd) id db.

(** ** Storage calls, faults and the request monad *)

(** The calls the repository makes on the model and on its session. *)
Inductive StorageCall : Type :=
  | StartSession
  | StartTransaction
  | FindByIdAndUpdate (fld : Field)
  | CommitTransaction
  | AbortTransaction
  | EndSession
  | FindById
  | Find
  | FindOne.

Global Instance Field_eq_dec : EqDecision Field.
Proof. solve_decision. Defined.

Global Instance StorageCall_eq_dec : EqDecision StorageCall.
Proof. solve_decision. Defined.

(** What a storage call throws: its own failure, or the driver's complaint
    about a commit without a transaction. *)
Inductive Exn : Type :=
  | StorageError (c : StorageCall)
  | NoTransaction.

(** The [logger.error] lines of the repository, with their arguments. *)
Inductive LogEntry : Type :=
  | ErrFollowing (targetUserId userId : string) (e : Exn)
  | ErrRemovingFollow (userId targetUserId : string) (e : Exn)
  | ErrFetchingFollowers (userId : string) (e : Exn)
  | ErrFetchingFollowing (userId : string) (e : Exn)
  | ErrCheckingFollowing (userId targetUserId : string) (e : Exn)
  | ErrFetchingCounts (userId : string) (e : Exn).

(** The state a request runs in: the committed collection, the working copy
    of the session's transaction while one is in flight, the storage calls
    made so far, what a reader outside the session finds in the collection
    after each of them, and the error log. *)
Record World : Type := mkWorld {
  committed : Store;
  txn : option Store;
  calls : list StorageCall;
  observed : list Store;
  logs : list LogEntry
}.

(** A request at rest on a collection: no transaction, nothing called. *)
Definition atRest (db : Store) : World := mkWorld db None [] [] [].

Definition withCommitted (db : Store) (w : World) : World :=
  mkWorld db (txn w) (calls w) (observed w) (logs w).

Definition withTxn (t : option Store) (w : World) : World :=
  mkWorld (committed w) t (calls w) (observed w) (logs w).

Definition called (c : StorageCall) (w : World) : World :=
  mkWorld (committed w) (txn w) (calls w ++ [c]) (observed w) (logs w).

Definition observe (w : World) : World :=
  mkWorld (committed w) (txn w) (calls w) (observed w ++ [committed w]) (logs w).

(** How an [async] method settles. *)
Inductive Outcome (A : Type) : Type :=
  | Resolved (a : A)
  | Rejected (e : Exn).
Arguments Resolved {A} a.
Arguments Rejected {A} e.

Definition M (A : Type) : Type := World → Outcome A * World.

Definition ret {A} (a : A) : M A := λ w, (Resolved a, w).

Definition bind {A B} (m : M A) (k : A → M B) : M B :=
  λ w, match m w with
       | (Resolved a, w') => k a w'
       | (Rejected e, w') => (Rejected e, w')
       end.

(** [try { body } catch (error) { handler }] *)
Definition try_catch {A} (body : M A) (handler : Exn → M A) : M A :=
  λ w, match body w with
       | (Resolved a, w') => (Resolved a, w')
       | (Rejected e, w') => handler e w'
       end.

Global Instance M_ret : MRet M := @ret.
Global Instance M_bind : MBind M := λ A B k m, bind m k.

Definition logger_error (entry : LogEntry) : M unit :=
  λ w, (Resolved (),
        mkWorld (committed w) (txn w) (calls w) (observed w) (logs w ++ [entry])).

Section Repository.

(** Which storage calls throw during this request. *)
Variable throws : StorageCall → bool.

(** An awaited storage call: recorded, then either it throws or it acts;
    when it has returned, the collection is there to be read by anyone. *)
Definition storage {A} (c : StorageCall) (act : M A) : M A :=
  λ w, let w' := called c w in
       if throws c then (Rejected (StorageError c), observe w')
       else let r := act w' in (r.1, observe r.2).

Definition User_startSession : M unit :=
  storage StartSession (mret ()).

(** The transaction starts from the committed collection. *)
Definition session_startTransaction : M unit :=
  storage StartTransaction
    (λ w, (Resolved (), withTxn (Some (committed w)) w)).

(** [User.findByIdAndUpdate(id, upd, { session })]: inside a transaction
    the write goes to its working copy, otherwise straight to the
    collection. *)
Definition User_findByIdAndUpdate (id : string) (fld : Field) (upd : Update) : M unit :=
  storage (FindByIdAndUpdate fld)
    (λ w, match txn w with
          | Some t => (Resolved (), withTxn (Some (updateById id upd t)) w)
          | None => (Resolved (), withCommitted (updateById id upd (committed w)) w)
          end).

(** A commit that throws leaves the collection as it was. *)
Definition session_commitTransaction : M unit :=
  storage CommitTransaction
    (λ w, match txn w with
          | Some t => (Resolved (), withTxn None (withCommitted t w))
          | None => (Rejected NoTransaction, w)
          end).

Definition session_abortTransaction : M unit :=
  storage AbortTransaction
    (λ w, (Resolved (), withTxn None w)).

(** [session.endSession()] is not awaited: it is recorded, and a failure
    of it never reaches the caller. *)
Definition session_endSession : M unit :=
  λ w, (Resolved (), called EndSession w).

(** *** followUser *)
Definition followUser (userId targetUserId : string) : M bool :=
  User_startSession ;;
  session_startTransaction ;;
  try_catch (
    (* Add userId to targetUserId.followers *)
    User_findByIdAndUpdate targetUserId Followers (AddToSet Followers userId) ;;
    (* Add targetUserId to userId.following *)
    User_findByIdAndUpdate userId Following (AddToSet Following targetUserId) ;;
    session_commitTransaction ;;
    session_endSession ;;
    mret true
  ) (λ error,
    session_abortTransaction ;;
    session_endSession ;;
    logger_error (ErrFollowing targetUserId userId error) ;;
    mret false).

(** *** removeFollow *)
Definition removeFollow (userId targetUserId : string) : M bool :=
  if decide (userId = targetUserId) then mret false else
  User_startSession ;;
  session_startTransaction ;;
  try_catch (
    (* Remove userId from targetUserId.followers *)
    User_findByIdAndUpdate targetUserId Followers (Pull Followers userId) ;;
    (* Remove targetUserId from userId.following *)
    User_findByIdAndUpdate userId Following (Pull Following targetUserId) ;;
    session_commitTransaction ;;
    session_endSession ;;
    mret true
  ) (λ error,
    session_abortTransaction ;;
    session_endSession ;;
    logger_error (ErrRemovingFollow userId targetUserId error) ;;
    mret false).

(** *** Reads (outside any session: they see the committed collection) *)

(** [User.findById(id).select(..).lean()] *)
Definition User_findById (id : string) : M (option UserDoc) :=
  storage FindById (λ w, (Resolved (committed w !! id), w)).

(** [User.find({ _id: { $in: ids } }).select("fullName avatar").lean()]:
    the documents whose id is among [ids], in the collection's own order. *)
Definition User_find (ids : list string) : M (list (string * UserDoc)) :=
  storage Find
    (λ w, (Resolved (filter (λ p, p.1 ∈ ids) (map_to_list (committed w))), w)).

(** [User.findOne({ _id: targetUserId, followers: userId }).lean()] *)
Definition User_findOne (targetUserId userId : string) : M (option UserDoc) :=
  storage FindOne
    (λ w, (Resolved (match committed w !! targetUserId with
                     | Some u => if decide (userId ∈ followers u) then Some u else None
                     | None => None
                     end), w)).

Definition toFollowUser (p : string * UserDoc) : IFollowUser :=
  mkFollowUser p.1 (fullName p.2) (avatar p.2).

(** *** findFollowers *)
Definition findFollowers (userId : string) : M (list IFollowUser) :=
  try_catch (
    user ← User_findById userId;
    match user with
    | None => mret []
    | Some u =>
        if decide (length (followers u) = 0) then mret [] else
        found ← User_find (followers u);
        mret (map toFollowUser found)
    end
  ) (λ error,
    logger_error (ErrFetchingFollowers userId error) ;;
    mret []).

(** *** findFollowing *)
Definition findFollowing (userId : string) : M (list IFollowUser) :=
  try_catch (
    user ← User_findById userId;
    match user with
    | None => mret []
    | Some u =>
        if decide (length (following u) = 0) then mret [] else
        found ← User_find (following u);
        mret (map toFollowUser found)
    end
  ) (λ error,
    logger_error (ErrFetchingFollowing userId error) ;;
    mret []).

(** *** isFollowing *)
Definition isFollowing (userId targetUserId : string) : M bool :=
  try_catch (
    user ← User_findOne targetUserId userId;
    mret (bool_decide (is_Some user))
  ) (λ error,
    logger_error (ErrCheckingFollowing userId targetUserId error) ;;
    mret false).

(** *** getFollowCounts *)
Definition getFollowCounts (userId : string) : M (option IFollowCount) :=
  try_catch (
    user ← User_findById userId;
    match user with
    | None => mret None
    | Some u =>
        mret (Some (mkFollowCount (length (followers u)) (length (following u))))
    end
  ) (λ error,
    logger_error (ErrFetchingCounts userId error) ;;
    mret None).

End Repository.

(** ** The authorization middleware *)

Module Auth.

(** Modelled from the spec: the [UserRole] enum of [auth.entity], a closed
    two-variant role tag. *)
Inductive UserRole : Type := USER | ADMIN.

Global Instance UserRole_eq_dec : EqDecision UserRole.
Proof. solve_decision. Defined.

(** Modelled from the spec: [IAuthUser] of [auth.dto], of which the
    middleware reads the identity and the role. *)
Record IAuthUser : Type := mkAuthUser {
  id : string;
  role : UserRole
}.

(** What the middleware reads of the request: [req.user], [req.params?.id]
    and [req.method]. *)
Record Request : Type := mkRequest {
  user : option IAuthUser;
  params_id : option string;
  method : option string
}.

(** The members of [ErrorCode] and the arguments of [new ApiError(..)] that
    the middleware uses. *)
Inductive ErrorCode : Type := UNAUTHORIZED | BAD_REQUEST | PERMISSION_DENIED.

Record ApiError : Type := mkApiError {
  message : string;
  statusCode : nat;
  code : ErrorCode
}.

(** The middleware either hands over to the next handler or throws. *)
Inductive Result : Type :=
  | Next
  | Throw (e : ApiError).

Definition upperChar (c : ascii) : ascii :=
  let n := nat_of_ascii c in
  if (97 <=? n)%nat && (n <=? 122)%nat then ascii_of_nat (n - 32) else c.

(** [toUpperCase] on the ASCII letters an HTTP method is made of. *)
Fixpoint toUpperCase (s : string) : string :=
  match s with
  | EmptyString => EmptyString
  | String c s' => String (upperChar c) (toUpperCase s')
  end.

Definition defaultMessage : string := "Action not allowed on yourself".

Definition authorizeUserAction (message : string) (req : Request) : Result :=
  let targetUserId := params_id req in
  let method := toUpperCase <$> method req in
  (* AUTH CHECK *)
  match user req with
  | None => Throw (mkApiError "Unauthorized request" 401 UNAUTHORIZED)
  | Some user =>
      (* INPUT VALIDATION *)
      match targetUserId with
      | None | Some "" =>
          Throw (mkApiError "Target user not specified" 400 BAD_REQUEST)
      | Some targetUserId =>
          let isSelf := bool_decide (id user = targetUserId) in
          let isAdmin := bool_decide (role user = ADMIN) in
          (* ADMIN RULES *)
          if isAdmin then
            (* Admin cannot delete itself *)
            if isSelf && bool_decide (method = Some "DELETE") then
              Throw (mkApiError message 403 PERMISSION_DENIED)
            else
              (* Admin allowed for all other cases *)
              Next
          else
          (* USER RULES *)
          if isSelf then
            (* User can act on own resource *)
            Next
          else
          (* FALLBACK *)
          Throw (mkApiError "You do not have permission to perform this action"
                            403 PERMISSION_DENIED)
      end
  end.

End Auth.

(** ** Specification-level notions *)

(** What a committed [followUser userId targetUserId] leaves behind: the two
    writes, in the order the transaction makes them. *)
Definition follow_effect (userId targetUserId : string) (db : Store) : Store :=
  updateById userId (AddToSet Following targetUserId)
    (updateById targetUserId (AddToSet Followers userId) db).

Definition unfollow_effect (userId targetUserId : string) (db : Store) : Store :=
  updateById userId (Pull Following targetUserId)
    (updateById targetUserId (Pull Followers userId) db).

(** The transaction runs to its commit: none of the five awaited calls up to
    and including the commit throws. *)
Definition txCommits (throws : StorageCall → bool) : bool :=
  negb (throws StartSession) && negb (throws StartTransaction) &&
  negb (throws (FindByIdAndUpdate Followers)) &&
  negb (throws (FindByIdAndUpdate Following)) &&
  negb (throws CommitTransaction).

(** A transaction is opened and then fails before it is committed. *)
Definition txFails (throws : StorageCall → bool) : bool :=
  negb (throws StartSession) && negb (throws StartTransaction) &&
  (throws (FindByIdAndUpdate Followers) ||
   throws (FindByIdAndUpdate Following) ||
   throws CommitTransaction).

(** Some awaited call throws before the transaction is committed. *)
Definition errorBeforeCommit (throws : StorageCall → bool) : bool :=
  throws StartSession || throws StartTransaction ||
  throws (FindByIdAndUpdate Followers) ||
  throws (FindByIdAndUpdate Following) ||
  throws CommitTransaction.

(** No storage call throws. *)
Definition noFault : StorageCall → bool := λ _, false.

(** A request has left the collection as it was, and at no moment could a
    reader find anything else in it. *)
Definition unchanged {A} (db : Store) (r : Outcome A * World) : Prop :=
  committed r.2 = db ∧ Forall (λ s, s = db) (observed r.2).

(** Invariant I1 on a collection: for distinct users [A] and [B], [A] is
    among the followers of [B] exactly when [B] is among those [A]
    follows. *)
Definition I1 (db : Store) : Prop :=
  ∀ A B uA uB, A ≠ B → db !! A = Some uA → db !! B = Some uB →
    (A ∈ followers uB ↔ B ∈ following uA).

(** Invariant I2 on a collection: both arrays of every document are
    duplicate-free, so they stand for sets. *)
Definition I2 (db : Store) : Prop :=
  ∀ i u, db !! i = Some u → NoDup (followers u) ∧ NoDup (following u).

(** The edge from [A] to [B] is absent on both sides. *)
Definition noEdge (db : Store) (A B : string) : Prop :=
  (∀ uB, db !! B = Some uB → A ∉ followers uB) ∧
  (∀ uA, db !! A = Some uA → B ∉ following uA).

(** The two writes of a follow, and of an unfollow, seen from the document
    with id [i]. *)
Definition followDoc (userId targetUserId i : string) (u : UserDoc) : UserDoc :=
  mkUserDoc (fullName u) (avatar u)
    (if decide (i = targetUserId) then addToSet userId (followers u) else followers u)
    (if decide (i = userId) then addToSet targetUserId (following u) else following u).

Definition unfollowDoc (userId targetUserId i : string) (u : UserDoc) : UserDoc :=
  mkUserDoc (fullName u) (avatar u)
    (if decide (i = targetUserId) then pull userId (followers u) else followers u)
    (if decide (i = userId) then pull targetUserId (following u) else following u).

(** A storage failure in call [c] is distinguishable at the boundary of
    [op] when no run in which [c] throws gives an answer that some run
    without any failure gives as well. *)
Definition failure_distinguishable {A} (op : (StorageCall → bool) → M A)
    (c : StorageCall) : Prop :=
  ∀ throws db db', throws c = true →
    (op throws (atRest db)).1 ≠ (op noFault (atRest db')).1.

(** *** The authorization decision *)

Inductive DenyReason : Type := CannotDeleteSelf | NotPermittedOnOther.

Inductive Decision : Type :=
  | Allow
  | Deny (reason : DenyReason).

(** The decision table as the specification words it, over
    [(isSelf, isAdmin, method = DELETE)]. *)
Definition decide_policy (isSelf isAdmin isDelete : bool) : Decision :=
  if isAdmin then
    if isSelf && isDelete then Deny CannotDeleteSelf else Allow
  else
    if isSelf then Allow else Deny NotPermittedOnOther.

(** How the middleware voices a decision. *)
Definition enact (message : string) (d : Decision) : Auth.Result :=
  match d with
  | Allow => Auth.Next
  | Deny CannotDeleteSelf =>
      Auth.Throw (Auth.mkApiError message 403 Auth.PERMISSION_DENIED)
  | Deny NotPermittedOnOther =>
      Auth.Throw (Auth.mkApiError
        "You do not have permission to perform this action"
        403 Auth.PERMISSION_DENIED)
  end.

(** *** Checkers and a sample collection *)

Definition I1b (db : Store) : bool :=
  forallb (λ pA,
    forallb (λ pB,
      bool_decide (pA.1 = pB.1 ∨
                   (pA.1 ∈ followers pB.2 ↔ pB.1 ∈ following pA.2)))
      (map_to_list db))
    (map_to_list db).

Definition noEdgeb (db : Store) (A B : string) : bool :=
  match db !! B with
  | Some uB => bool_decide (A ∉ followers uB)
  | None => true
  end &&
  match db !! A with
  | Some uA => bool_decide (B ∉ following uA)
  | None => true
  end.

(** Four well-formed document ids (24 hexadecimal digits). *)
Definition annId : string := "aaaaaaaaaaaaaaaaaaaaaaa1".
Definition bobId : string := "bbbbbbbbbbbbbbbbbbbbbbb2".
Definition catId : string := "ccccccccccccccccccccccc3".
Definition zedId : string := "ddddddddddddddddddddddd4".

(** Bob follows Ann; Cat follows nobody and has no follower; no document
    has the id [zedId]. *)
Definition ann : UserDoc := mkUserDoc "Ann" None [bobId] [].
Definition bob : UserDoc := mkUserDoc "Bob" (Some "bob.png") [] [annId].
Definition cat : UserDoc := mkUserDoc "Cat" None [] [].

Definition sampleDb : Store :=
  <[annId := ann]> (<[bobId := bob]> (<[catId := cat]> ∅)).

(** The first write throws, and then the abort in the handler. *)
Definition writeAndAbortFail : StorageCall → bool :=
  λ c, bool_decide (c = FindByIdAndUpdate Followers ∨ c = AbortTransaction).

(** Only the commit throws. *)
Definition commitFails : StorageCall → bool :=
  λ c, bool_decide (c = CommitTransaction).

(** Every storage call throws. *)
Definition allFail : StorageCall → bool := λ _, true.

(** ** Sequences of graph requests *)

(** A follow or an unfollow request, each served at rest on the collection
    the previous one committed, with its own storage faults. *)
Inductive GraphRequest : Type :=
  | Follow (userId targetUserId : string)
  | Unfollow (userId targetUserId : string).

Definition serveGraph (throws : StorageCall → bool) (rq : GraphRequest)
    (db : Store) : Store :=
  match rq with
  | Follow a b => committed (followUser throws a b (atRest db)).2
  | Unfollow a b => committed (removeFollow throws a b (atRest db)).2
  end.

Fixpoint serveGraphAll (rqs : list ((StorageCall → bool) * GraphRequest))
    (db : Store) : Store :=
  match rqs with
  | [] => db
  | (throws, rq) :: rest => serveGraphAll rest (serveGraph throws rq db)
  end.


(** The ids among [ids] that have a document. *)
Definition resolving (db : Store) (ids : list string) : list string :=
  filter (λ x, is_Some (db !! x)) ids.

(** A request of [a] about [b] has kept the set of documents, every
    document's name and avatar, every [followers] array but that of [b] and
    every [following] array but that of [a]. *)
Definition framed (a b : string) (db db' : Store) : Prop :=
  dom db' = dom db ∧
  ∀ i u', db' !! i = Some u' →
    ∃ u, db !! i = Some u ∧
      fullName u' = fullName u ∧ avatar u' = avatar u ∧
      (i ≠ b → followers u' = followers u) ∧
      (i ≠ a → following u' = following u).

Definition I2b (db : Store) : bool :=
  forallb (λ p, bool_decide (NoDup (followers p.2) ∧ NoDup (following p.2)))
    (map_to_list db).

(** A read has resolved, has written nothing, has opened no transaction and
    has made at most two calls, all of them lookups. *)
Definition readOnly {A} (db : Store) (r : Outcome A * World) : Prop :=
  (∃ v, r.1 = Resolved v) ∧
  committed r.2 = db ∧ txn r.2 = None ∧
  Forall (λ s, s = db) (observed r.2) ∧
  Forall (λ c, c = FindById ∨ c = Find ∨ c = FindOne) (calls r.2) ∧
  (length (calls r.2) ≤ 2)%nat.

(** ** The other writes of the repository: deleteById, updateAccountById *)

Inductive CrudCall : Type := FindByIdAndDelete | FindByIdAndSet.

Inductive CrudLog : Type :=
  | ErrDeleting (userId : string)
  | ErrUpdating (userId : string).

(** What one of these methods leaves: its answer, the collection, the calls
    it made on the model and what it logged.  Their whole body is in a
    [try], so they always resolve. *)
Record CrudRun (A : Type) : Type := mkCrudRun {
  answer : A;
  stored : Store;
  crudCalls : list CrudCall;
  crudLogs : list CrudLog
}.
Arguments mkCrudRun {A} _ _ _ _.
Arguments answer {A} _.
Arguments stored {A} _.
Arguments crudCalls {A} _.
Arguments crudLogs {A} _.

Section Crud.

(** Which of the two calls throw during this request. *)
Variable throws : CrudCall → bool.

(** *** deleteById: [findByIdAndDelete], then [!!result]. *)
Definition deleteById (userId : string) (db : Store) : CrudRun bool :=
  if throws FindByIdAndDelete then
    mkCrudRun false db [FindByIdAndDelete] [ErrDeleting userId]
  else
    let result := db !! userId in
    mkCrudRun (bool_decide (is_Some result)) (delete userId db)
      [FindByIdAndDelete] [].

(** The update documents [{ $set: updates }]: what [Partial<IUpdateUser>]
    holds and how the store applies it are taken as given. *)
Variable Updates : Type.
Variable applySet : Updates → UserDoc → UserDoc.

(** *** updateAccountById: [findByIdAndUpdate(userId, { $set: updates },
    { new: true })], then [result ? updates : null]. *)
Definition updateAccountById (userId : string) (updates : Updates)
    (db : Store) : CrudRun (option Updates) :=
  if throws FindByIdAndSet then
    mkCrudRun None db [FindByIdAndSet] [ErrUpdating userId]
  else
    let result := applySet updates <$> db !! userId in
    mkCrudRun (match result with Some _ => Some updates | None => None end)
      (alter (applySet updates) userId db) [FindByIdAndSet] [].

End Crud.

(** ** findById and the dashboard view *)

Module Profile.







Section FindById.

(** [mongoose.Types.ObjectId.isValid], and whether the lookup throws. *)
Variable isValid : string → bool.
Variable throws : bool.


End FindById.

End Profile.

(** ** The serverless entry point *)

Module Server.

Inductive Log : Type := AppInitialized | HandlerError.

(** The module state of [index.ts]: [initPromise] ([None] for [null],
    otherwise how the promise settled), and, to speak about them, the
    number of [connectDB] calls made, the requests handed to [app] and the
    log. *)
Record State : Type := mkState {
  initPromise : option bool;
  connects : nat;
  appCalls : list string;
  logs : list Log
}.

Definition fresh : State := mkState None 0 [] [].

Inductive Response : Type :=
  | Handled (r : string)
  | InternalServerError.

Section Handler.

(** Whether the n-th call of [connectDB] succeeds, and what [app] does with
    a request ([None] when it throws). *)
Variable connectOk : nat → bool.
Variable app : string → option string.

(** [init]: the first call creates the promise, every call awaits it. *)
Definition init (s : State) : bool * State :=
  match initPromise s with
  | Some settled => (settled, s)
  | None =>
      let ok := connectOk (connects s) in
      (ok, mkState (Some ok) (S (connects s)) (appCalls s)
             (logs s ++ if ok then [AppInitialized] else []))
  end.

Definition logError (s : State) : State :=
  mkState (initPromise s) (connects s) (appCalls s) (logs s ++ [HandlerError]).

(** [handler] *)
Definition handler (req : string) (s : State) : Response * State :=
  let (ok, s1) := init s in
  if ok then
    let s2 := mkState (initPromise s1) (connects s1) (appCalls s1 ++ [req])
                (logs s1) in
    match app req with
    | Some r => (Handled r, s2)
    | None => (InternalServerError, logError s2)
    end
  else (InternalServerError, logError s1).

(** Requests served one after the other by the same instance. *)
Fixpoint serve (reqs : list string) (s : State) : list Response * State :=
  match reqs with
  | [] => ([], s)
  | req :: rest =>
      let (r, s1) := handler req s in
      let (rs, s2) := serve rest s1 in
      (r :: rs, s2)
  end.

End Handler.

End Server.

(** *** Sample inputs for the further properties *)

(** Ann, besides, follows [zedId], which has no document. *)
Definition danglingDb : Store :=
  <[annId := mkUserDoc "Ann" None [bobId] [zedId]]> sampleDb.

Definition sampleRequests : list ((StorageCall → bool) * GraphRequest) :=
  [ (noFault, Follow catId annId);
    (commitFails, Unfollow bobId annId);
    (noFault, Follow catId catId);
    (noFault, Unfollow catId catId);
    (noFault, Unfollow bobId catId);
    (allFail, Follow annId bobId);
    (noFault, Follow annId zedId) ].

(** A [$set] of the name alone. *)
Definition setFullName (n : string) (u : UserDoc) : UserDoc :=
  mkUserDoc n (avatar u) (followers u) (following u).




(** An [app] that throws on one path. *)
Definition sampleApp (req : string) : option string :=
  if String.eqb req "/boom" then None else Some ("200 " ++ req).

(** The first connection attempt fails, every later one would succeed. *)
Definition firstConnectFails (n : nat) : bool := negb (n =? 0)%nat.

(** * Properties *)

(** ** Arrays under [$addToSet] and [$pull] *)

Lemma elem_of_addToSet (x v : string) (l : list string) :
  x ∈ addToSet v l ↔ x = v ∨ x ∈ l.
Proof.
  unfold addToSet. case_decide as Hv.
  - split; [by right | intros [->|]; done].
  - rewrite elem_of_app, list_elem_of_singleton. tauto.
Qed.

Lemma elem_of_pull (x v : string) (l : list string) :
  x ∈ pull v l ↔ x ≠ v ∧ x ∈ l.
Proof. unfold pull. by rewrite list_elem_of_filter. Qed.

Lemma addToSet_idemp (v : string) (l : list string) :
  addToSet v (addToSet v l) = addToSet v l.
Proof.
  unfold addToSet at 1. rewrite decide_True; [done|].
  apply elem_of_addToSet. by left.
Qed.

Lemma pull_absent (v : string) (l : list string) : v ∉ l → pull v l = l.
Proof.
  intros Hv. unfold pull. induction l as [|x l IH]; [done|].
  apply not_elem_of_cons in Hv as [Hne Hl].
  rewrite filter_cons_True by congruence. by rewrite IH.
Qed.

Lemma pull_idemp (v : string) (l : list string) : pull v (pull v l) = pull v l.
Proof. apply pull_absent. rewrite elem_of_pull. tauto. Qed.

Lemma NoDup_addToSet (v : string) (l : list string) :
  NoDup l → NoDup (addToSet v l).
Proof.
  intros Hl. unfold addToSet. case_decide as Hv; [done|].
  apply NoDup_app. split_and!; [done| |apply NoDup_singleton].
  intros x Hx ->%list_elem_of_singleton. done.
Qed.

Lemma NoDup_pull (v : string) (l : list string) : NoDup l → NoDup (pull v l).
Proof. apply NoDup_filter. Qed.

Lemma length_NoDup_card (l : list string) :
  NoDup l → length l = size (list_to_set l : gset string).
Proof. intros Hl. by rewrite size_list_to_set. Qed.

Lemma follow_effect_lookup (a b i : string) (db : Store) :
  follow_effect a b db !! i = followDoc a b i <$> db !! i.
Proof.
  unfold follow_effect, updateById, followDoc.
  rewrite !lookup_alter.
  destruct (db !! i) as [[n av fs fg]|] eqn:Hi;
    repeat case_decide; simplify_eq; rewrite ?Hi; simpl; try done.
  all: destruct (db !! _) as [[]|]; done.
Qed.

Lemma unfollow_effect_lookup (a b i : string) (db : Store) :
  unfollow_effect a b db !! i = unfollowDoc a b i <$> db !! i.
Proof.
  unfold unfollow_effect, updateById, unfollowDoc.
  rewrite !lookup_alter.
  destruct (db !! i) as [[n av fs fg]|] eqn:Hi;
    repeat case_decide; simplify_eq; rewrite ?Hi; simpl; try done.
  all: destruct (db !! _) as [[]|]; done.
Qed.

(** ** Running the two transactions *)

Ltac run_request :=
  unfold followUser, removeFollow, findFollowers, findFollowing, isFollowing,
    getFollowCounts, try_catch, mbind, M_bind, bind, mret, M_ret, ret,
    User_startSession, session_startTransaction, User_findByIdAndUpdate,
    session_commitTransaction, session_abortTransaction, session_endSession,
    User_findById, User_find, User_findOne, storage, logger_error, atRest,
    observe, called, withTxn, withCommitted;
  simpl.

Ltac each_observed :=
  repeat match goal with
         | |- Forall _ [] => constructor
         | |- Forall _ (_ :: _) => constructor; [by auto|]
         end.

Ltac split_faults throws :=
  repeat match goal with
         | |- context [throws ?c] => destruct (throws c) eqn:?; simpl
         end.

Lemma followUser_commits throws a b db :
  txCommits throws = true →
  followUser throws a b (atRest db) =
    (Resolved true,
     mkWorld (follow_effect a b db) None
       [StartSession; StartTransaction; FindByIdAndUpdate Followers;
        FindByIdAndUpdate Following; CommitTransaction; EndSession]
       [db; db; db; db; follow_effect a b db] []).
Proof.
  unfold txCommits. intros H. run_request. split_faults throws; done.
Qed.

Lemma followUser_fails throws a b db :
  txCommits throws = false →
  (followUser throws a b (atRest db)).1 ≠ Resolved true ∧
  committed (followUser throws a b (atRest db)).2 = db.
Proof.
  unfold txCommits. intros H. run_request. split_faults throws; done.
Qed.

Lemma removeFollow_self throws a w :
  removeFollow throws a a w = (Resolved false, w).
Proof. unfold removeFollow. by rewrite decide_True. Qed.

Lemma removeFollow_commits throws a b db :
  a ≠ b → txCommits throws = true →
  removeFollow throws a b (atRest db) =
    (Resolved true,
     mkWorld (unfollow_effect a b db) None
       [StartSession; StartTransaction; FindByIdAndUpdate Followers;
        FindByIdAndUpdate Following; CommitTransaction; EndSession]
       [db; db; db; db; unfollow_effect a b db] []).
Proof.
  unfold txCommits. intros Hab H. unfold removeFollow.
  rewrite decide_False by done. run_request. split_faults throws; done.
Qed.

Lemma removeFollow_fails throws a b db :
  txCommits throws = false →
  (removeFollow throws a b (atRest db)).1 ≠ Resolved true ∧
  committed (removeFollow throws a b (atRest db)).2 = db.
Proof.
  unfold txCommits. intros H. unfold removeFollow.
  case_decide; [done|]. run_request. split_faults throws; done.
Qed.

(** Whatever throws, the collection afterwards is the old one or the one
    with both writes: there is nothing in between. *)
Lemma followUser_all_or_nothing throws a b db :
  let r := followUser throws a b (atRest db) in
  (r.1 = Resolved true ∧ committed r.2 = follow_effect a b db) ∨
  (r.1 ≠ Resolved true ∧ committed r.2 = db).
Proof.
  simpl. destruct (txCommits throws) eqn:H.
  - left. by rewrite followUser_commits.
  - right. by apply followUser_fails.
Qed.

Lemma removeFollow_all_or_nothing throws a b db :
  let r := removeFollow throws a b (atRest db) in
  (r.1 = Resolved true ∧ a ≠ b ∧ committed r.2 = unfollow_effect a b db) ∨
  (r.1 ≠ Resolved true ∧ committed r.2 = db).
Proof.
  simpl. destruct (decide (a = b)) as [->|Hab].
  - right. by rewrite removeFollow_self.
  - destruct (txCommits throws) eqn:H.
    + left. by rewrite removeFollow_commits.
    + right. by apply removeFollow_fails.
Qed.

(** What a reader could have found in the collection while the request
    ran: the old collection, or the one with both writes. *)
Lemma followUser_observed throws a b db :
  Forall (λ s, s = db ∨ s = follow_effect a b db)
    (observed (followUser throws a b (atRest db)).2).
Proof.
  run_request. split_faults throws; each_observed.
Qed.

Lemma removeFollow_observed throws a b db :
  Forall (λ s, s = db ∨ s = unfollow_effect a b db)
    (observed (removeFollow throws a b (atRest db)).2).
Proof.
  unfold removeFollow. case_decide; [constructor|].
  run_request. split_faults throws; each_observed.
Qed.

Lemma followUser_observed_unchanged throws a b db :
  txCommits throws = false →
  Forall (λ s, s = db) (observed (followUser throws a b (atRest db)).2).
Proof.
  unfold txCommits. intros H. run_request.
  split_faults throws; try done; each_observed.
Qed.

Lemma removeFollow_observed_unchanged throws a b db :
  txCommits throws = false →
  Forall (λ s, s = db) (observed (removeFollow throws a b (atRest db)).2).
Proof.
  unfold txCommits. intros H. unfold removeFollow. case_decide; [constructor|].
  run_request. split_faults throws; try done; each_observed.
Qed.

(** ** Invariants of the follow graph *)

Lemma I1_follow_effect a b db : I1 db → I1 (follow_effect a b db).
Proof.
  intros HI A B uA' uB' HAB HA HB.
  rewrite follow_effect_lookup in HA, HB.
  destruct (db !! A) as [uA|] eqn:EA; [|done].
  destruct (db !! B) as [uB|] eqn:EB; [|done].
  simplify_eq/=. specialize (HI A B uA uB HAB EA EB).
  repeat case_decide; subst; rewrite ?elem_of_addToSet; intuition congruence.
Qed.

Lemma I1_unfollow_effect a b db : I1 db → I1 (unfollow_effect a b db).
Proof.
  intros HI A B uA' uB' HAB HA HB.
  rewrite unfollow_effect_lookup in HA, HB.
  destruct (db !! A) as [uA|] eqn:EA; [|done].
  destruct (db !! B) as [uB|] eqn:EB; [|done].
  simplify_eq/=. specialize (HI A B uA uB HAB EA EB).
  repeat case_decide; subst; rewrite ?elem_of_pull; intuition congruence.
Qed.

Lemma I2_follow_effect a b db : I2 db → I2 (follow_effect a b db).
Proof.
  intros HI i u' Hi. rewrite follow_effect_lookup in Hi.
  destruct (db !! i) as [u|] eqn:E; [|done].
  simplify_eq/=. destruct (HI i u E).
  repeat case_decide; eauto using NoDup_addToSet.
Qed.

Lemma I2_unfollow_effect a b db : I2 db → I2 (unfollow_effect a b db).
Proof.
  intros HI i u' Hi. rewrite unfollow_effect_lookup in Hi.
  destruct (db !! i) as [u|] eqn:E; [|done].
  simplify_eq/=. destruct (HI i u E).
  repeat case_decide; eauto using NoDup_pull.
Qed.

(** Set semantics (I2) survives every follow and unfollow, whatever
    throws. *)
Lemma I2_preserved throws a b db :
  I2 db →
  I2 (committed (followUser throws a b (atRest db)).2) ∧
  I2 (committed (removeFollow throws a b (atRest db)).2).
Proof.
  intros HI. split.
  - destruct (followUser_all_or_nothing throws a b db) as [[_ ->]|[_ ->]];
      auto using I2_follow_effect.
  - destruct (removeFollow_all_or_nothing throws a b db) as [(_&_&->)|[_ ->]];
      auto using I2_unfollow_effect.
Qed.

(** Both sides of the edge after a committed follow, for the documents that
    exist. *)
Lemma follow_effect_edge a b db :
  (∀ ub, follow_effect a b db !! b = Some ub → a ∈ followers ub) ∧
  (∀ ua, follow_effect a b db !! a = Some ua → b ∈ following ua).
Proof.
  split; intros u Hu; rewrite follow_effect_lookup in Hu;
    destruct (db !! _) as [u0|]; simplify_eq/=;
    rewrite decide_True by done; apply elem_of_addToSet; by left.
Qed.

Lemma unfollow_effect_noEdge a b db : noEdge (unfollow_effect a b db) a b.
Proof.
  split; intros u Hu; rewrite unfollow_effect_lookup in Hu;
    destruct (db !! _) as [u0|]; simplify_eq/=;
    rewrite decide_True by done; rewrite elem_of_pull; tauto.
Qed.

(** C1. Dual consistency (invariant I1): on a collection where, for all
    distinct users A and B, A is in B.followers exactly when B is in
    A.following, every [followUser] and every [removeFollow] leaves a
    collection with the same property, whichever storage calls throw, and
    nobody reading the collection while the request runs finds it without
    the property.  A follow that resolves to [true] has put A in B.followers
    and B in A.following together; an unfollow that resolves to [true] has
    removed both. *)
Theorem dual_consistency throws a b db :
  I1 db →
  let rf := followUser throws a b (atRest db) in
  let ru := removeFollow throws a b (atRest db) in
  (I1 (committed rf.2) ∧ Forall I1 (observed rf.2)) ∧
  (I1 (committed ru.2) ∧ Forall I1 (observed ru.2)) ∧
  (rf.1 = Resolved true →
     (∀ ub, committed rf.2 !! b = Some ub → a ∈ followers ub) ∧
     (∀ ua, committed rf.2 !! a = Some ua → b ∈ following ua)) ∧
  (ru.1 = Resolved true → noEdge (committed ru.2) a b).
Proof.
  intros HI. simpl. split_and!.
  - destruct (followUser_all_or_nothing throws a b db) as [[_ ->]|[_ ->]];
      auto using I1_follow_effect.
  - eapply Forall_impl; [apply followUser_observed|].
    intros s [->| ->]; auto using I1_follow_effect.
  - destruct (removeFollow_all_or_nothing throws a b db) as [(_&_&->)|[_ ->]];
      auto using I1_unfollow_effect.
  - eapply Forall_impl; [apply removeFollow_observed|].
    intros s [->| ->]; auto using I1_unfollow_effect.
  - destruct (followUser_all_or_nothing throws a b db) as [[_ ->]|[Hr _]];
      [intros _; apply follow_effect_edge | done].
  - destruct (removeFollow_all_or_nothing throws a b db) as [(_&_&->)|[Hr _]];
      [intros _; apply unfollow_effect_noEdge | done].
Qed.

Lemma errorBeforeCommit_not_commits throws :
  errorBeforeCommit throws = negb (txCommits throws).
Proof.
  unfold errorBeforeCommit, txCommits.
  destruct (throws StartSession), (throws StartTransaction),
    (throws (FindByIdAndUpdate Followers)),
    (throws (FindByIdAndUpdate Following)), (throws CommitTransaction); done.
Qed.

Lemma followUser_unchanged throws a b db :
  errorBeforeCommit throws = true →
  unchanged db (followUser throws a b (atRest db)) ∧
  (followUser throws a b (atRest db)).1 ≠ Resolved true.
Proof.
  rewrite errorBeforeCommit_not_commits, negb_true_iff. intros Hc.
  destruct (followUser_fails throws a b db Hc) as [Hr Hs].
  split; [split|]; [exact Hs | by apply followUser_observed_unchanged | exact Hr].
Qed.

Lemma removeFollow_unchanged throws a b db :
  errorBeforeCommit throws = true →
  unchanged db (removeFollow throws a b (atRest db)) ∧
  (removeFollow throws a b (atRest db)).1 ≠ Resolved true.
Proof.
  rewrite errorBeforeCommit_not_commits, negb_true_iff. intros Hc.
  destruct (removeFollow_fails throws a b db Hc) as [Hr Hs].
  split; [split|]; [exact Hs | by apply removeFollow_observed_unchanged | exact Hr].
Qed.

(** Inside the [try]: the handler aborts and the call resolves to [false],
    unless the abort throws in its turn. *)
Lemma followUser_rolls_back throws a b db :
  txFails throws = true →
  let rf := followUser throws a b (atRest db) in
  committed rf.2 = db ∧
  (throws AbortTransaction = false → rf.1 = Resolved false ∧ txn rf.2 = None) ∧
  (throws AbortTransaction = true →
     rf.1 = Rejected (StorageError AbortTransaction)).
Proof.
  unfold txFails. intros Hf. run_request.
  split_faults throws; split_and!; done.
Qed.

Lemma removeFollow_rolls_back throws a b db :
  txFails throws = true →
  let ru := removeFollow throws a b (atRest db) in
  committed ru.2 = db ∧
  (throws AbortTransaction = false → ru.1 = Resolved false ∧ txn ru.2 = None) ∧
  (throws AbortTransaction = true → a ≠ b →
     ru.1 = Rejected (StorageError AbortTransaction)).
Proof.
  unfold txFails. intros Hf. unfold removeFollow. case_decide; [done|].
  run_request. split_faults throws; split_and!; done.
Qed.

(** Outside the [try]: when starting the session or the transaction throws,
    the call rejects. *)
Lemma followUser_uncaught throws a b db :
  let rf := followUser throws a b (atRest db) in
  (throws StartSession = true → rf.1 = Rejected (StorageError StartSession)) ∧
  (throws StartSession = false → throws StartTransaction = true →
     rf.1 = Rejected (StorageError StartTransaction)).
Proof.
  run_request. split_and!; intros; split_faults throws; done.
Qed.

Lemma removeFollow_uncaught throws a b db :
  a ≠ b →
  let ru := removeFollow throws a b (atRest db) in
  (throws StartSession = true → ru.1 = Rejected (StorageError StartSession)) ∧
  (throws StartSession = false → throws StartTransaction = true →
     ru.1 = Rejected (StorageError StartTransaction)).
Proof.
  intros Hab. unfold removeFollow. rewrite decide_False by done.
  run_request. split_and!; intros; split_faults throws; done.
Qed.

(** C2 (as amended). Atomic rollback.  Whenever a call throws before the
    transaction is committed, [followUser] and [removeFollow] leave the
    collection exactly as it was (neither [followers] nor [following] of any
    document changes), at no moment of the request could a reader find
    anything but the old collection, and success is not reported.  When the
    transaction has been opened and it is one of the two writes or the
    commit that throws, the handler aborts the transaction and the call
    resolves to [false] with no transaction left in flight, provided the
    abort itself goes through; if the abort throws, the call rejects.  When
    it is the start of the session or of the transaction that throws, the
    call rejects as well: that error is raised outside the [try]. *)
Theorem atomic_rollback throws a b db :
  let rf := followUser throws a b (atRest db) in
  let ru := removeFollow throws a b (atRest db) in
  (errorBeforeCommit throws = true →
     unchanged db rf ∧ rf.1 ≠ Resolved true ∧
     unchanged db ru ∧ ru.1 ≠ Resolved true) ∧
  (txFails throws = true → throws AbortTransaction = false →
     rf.1 = Resolved false ∧ txn rf.2 = None ∧
     ru.1 = Resolved false ∧ txn ru.2 = None) ∧
  (txFails throws = true → throws AbortTransaction = true →
     rf.1 = Rejected (StorageError AbortTransaction) ∧
     (a ≠ b → ru.1 = Rejected (StorageError AbortTransaction))) ∧
  (throws StartSession = true →
     rf.1 = Rejected (StorageError StartSession) ∧
     (a ≠ b → ru.1 = Rejected (StorageError StartSession))) ∧
  (throws StartSession = false → throws StartTransaction = true →
     rf.1 = Rejected (StorageError StartTransaction) ∧
     (a ≠ b → ru.1 = Rejected (StorageError StartTransaction))).
Proof.
  simpl. split_and!.
  - intros He.
    destruct (followUser_unchanged throws a b db He) as [? ?].
    destruct (removeFollow_unchanged throws a b db He) as [? ?]. done.
  - intros Hf Ha.
    destruct (followUser_rolls_back throws a b db Hf) as (_ & Hr & _).
    destruct (removeFollow_rolls_back throws a b db Hf) as (_ & Hr' & _).
    destruct (Hr Ha), (Hr' Ha). done.
  - intros Hf Ha.
    destruct (followUser_rolls_back throws a b db Hf) as (_ & _ & Hr).
    destruct (removeFollow_rolls_back throws a b db Hf) as (_ & _ & Hr').
    split; [by apply Hr | intros; by apply Hr'].
  - intros Hs. split; [by apply followUser_uncaught|].
    intros Hab. by apply removeFollow_uncaught.
  - intros Hs Ht. split; [by apply followUser_uncaught|].
    intros Hab. by apply removeFollow_uncaught.
Qed.

(** The same without any assumption on what throws: a call that does not
    resolve to [true] has changed nothing, and one that does has made both
    writes. *)
Lemma no_partial_update throws a b db :
  let rf := followUser throws a b (atRest db) in
  let ru := removeFollow throws a b (atRest db) in
  Forall (λ s, s = db ∨ s = follow_effect a b db) (committed rf.2 :: observed rf.2) ∧
  Forall (λ s, s = db ∨ s = unfollow_effect a b db) (committed ru.2 :: observed ru.2) ∧
  (rf.1 ≠ Resolved true → committed rf.2 = db) ∧
  (ru.1 ≠ Resolved true → committed ru.2 = db).
Proof.
  simpl.
  pose proof (followUser_observed throws a b db) as Hof.
  pose proof (removeFollow_observed throws a b db) as Hou.
  destruct (followUser_all_or_nothing throws a b db) as [[Hf Ef]|[Hf Ef]];
  destruct (removeFollow_all_or_nothing throws a b db) as [(Hu&_&Eu)|[Hu Eu]];
  split_and!; try (constructor; [by auto|done]); by auto.
Qed.

(** ** Idempotence *)

Lemma follow_effect_idemp a b db :
  follow_effect a b (follow_effect a b db) = follow_effect a b db.
Proof.
  apply map_eq. intros i. rewrite !follow_effect_lookup.
  destruct (db !! i) as [u|]; [|done]. simpl. f_equal.
  unfold followDoc. simpl. repeat case_decide; by rewrite ?addToSet_idemp.
Qed.

Lemma unfollow_effect_noEdge_id a b db :
  noEdge db a b → unfollow_effect a b db = db.
Proof.
  intros [Hb Ha]. apply map_eq. intros i. rewrite unfollow_effect_lookup.
  destruct (db !! i) as [u|] eqn:Hi; [|done]. simpl. f_equal.
  unfold unfollowDoc. destruct u as [n av fs fg]. simpl.
  repeat case_decide; subst; f_equal; apply pull_absent.
  all: first [ by apply (Hb _ Hi) | by apply (Ha _ Hi) ].
Qed.

(** C7. Follow idempotence: once [followUser A B] has resolved to [true], a
    second [followUser A B] leaves the collection as the first one left it,
    whatever throws in the second call; it resolves to [true] again when its
    transaction commits, and [getFollowCounts B] answers the same after the
    second call as after the first. *)
Theorem follow_idempotent t1 t2 tr a b db :
  (followUser t1 a b (atRest db)).1 = Resolved true →
  let db1 := committed (followUser t1 a b (atRest db)).2 in
  let r2 := followUser t2 a b (atRest db1) in
  committed r2.2 = db1 ∧
  (txCommits t2 = true → r2.1 = Resolved true) ∧
  (getFollowCounts tr b (atRest (committed r2.2))).1 =
    (getFollowCounts tr b (atRest db1)).1.
Proof.
  intros H1. simpl.
  destruct (followUser_all_or_nothing t1 a b db) as [[_ E1]|[Hn _]]; [|done].
  assert (committed (followUser t2 a b
            (atRest (committed (followUser t1 a b (atRest db)).2))).2
          = committed (followUser t1 a b (atRest db)).2) as E2.
  { destruct (followUser_all_or_nothing t2 a b
                (committed (followUser t1 a b (atRest db)).2))
      as [[_ ->]|[_ ->]]; [|done].
    rewrite E1. apply follow_effect_idemp. }
  split_and!.
  - exact E2.
  - intros Hc. by rewrite followUser_commits.
  - by rewrite E2.
Qed.

(** C8. Unfollow idempotence: for A ≠ B with no edge from A to B on either
    side (never followed, or already unfollowed), a [removeFollow A B] whose
    transaction commits resolves to [true] and leaves every document, and so
    both sets, as they were. *)
Theorem unfollow_idempotent throws a b db :
  a ≠ b →
  noEdge db a b →
  txCommits throws = true →
  let ru := removeFollow throws a b (atRest db) in
  ru.1 = Resolved true ∧ committed ru.2 = db.
Proof.
  intros Hab Hne Hc. simpl. rewrite removeFollow_commits by done. simpl.
  split; [done|]. by apply unfollow_effect_noEdge_id.
Qed.

(** Unfollowing twice: the second committed [removeFollow] finds the edge
    gone and changes nothing. *)
Lemma unfollow_twice t1 t2 a b db :
  (removeFollow t1 a b (atRest db)).1 = Resolved true →
  committed (removeFollow t2 a b
    (atRest (committed (removeFollow t1 a b (atRest db)).2))).2
  = committed (removeFollow t1 a b (atRest db)).2.
Proof.
  intros H1.
  destruct (removeFollow_all_or_nothing t1 a b db) as [(_&Hab&E1)|[Hn _]]; [|done].
  destruct (removeFollow_all_or_nothing t2 a b
              (committed (removeFollow t1 a b (atRest db)).2))
    as [(_&_&->)|[_ ->]]; [|done].
  rewrite E1. apply unfollow_effect_noEdge_id, unfollow_effect_noEdge.
Qed.

(** ** Self-edges *)

(** C6. Self-unfollow asymmetry: [removeFollow A A] resolves to [false] and
    makes no storage call at all (no session, no transaction, nothing
    logged, nothing written), whatever the store would have done;
    [followUser A A] has no such guard: its first act is to start a session,
    and with nothing throwing it goes through both writes and the commit. *)
Theorem self_unfollow_asymmetry throws a db :
  removeFollow throws a a (atRest db) = (Resolved false, atRest db) ∧
  (∃ rest, calls (followUser throws a a (atRest db)).2 = StartSession :: rest) ∧
  followUser noFault a a (atRest db) =
    (Resolved true,
     mkWorld (follow_effect a a db) None
       [StartSession; StartTransaction; FindByIdAndUpdate Followers;
        FindByIdAndUpdate Following; CommitTransaction; EndSession]
       [db; db; db; db; follow_effect a a db] []).
Proof.
  split_and!.
  - apply removeFollow_self.
  - run_request. split_faults throws; eauto.
  - by apply followUser_commits.
Qed.

(** C10. Self-follow: [followUser A A] is not rejected.  When its
    transaction commits it resolves to [true], and the document of A then
    has A among its followers and among its following. *)
Theorem self_follow throws a u db :
  db !! a = Some u →
  txCommits throws = true →
  let rf := followUser throws a a (atRest db) in
  rf.1 = Resolved true ∧
  ∃ u', committed rf.2 !! a = Some u' ∧ a ∈ followers u' ∧ a ∈ following u'.
Proof.
  intros Hu Hc. simpl. rewrite followUser_commits by done. simpl.
  split; [done|]. rewrite follow_effect_lookup, Hu. simpl.
  eexists. split; [done|]. simpl. rewrite !decide_True by done.
  rewrite !elem_of_addToSet. auto.
Qed.

(** ** A target that is not in the collection *)

Lemma follow_effect_missing_target a b db :
  db !! b = None →
  follow_effect a b db = updateById a (AddToSet Following b) db.
Proof.
  intros Hb. unfold follow_effect. f_equal.
  unfold updateById. apply map_eq. intros i. rewrite lookup_alter.
  case_decide; subst; by rewrite ?Hb.
Qed.

(** C4 (as amended). When [targetUserId] names no document, the write to the
    target's followers matches nothing and raises nothing.  If no call up to
    the commit throws, [followUser] commits and resolves to [true], and the
    collection differs from the old one only in that [targetUserId] has been
    added to the following of [userId] (when that document exists).  If the
    transaction is opened and a call throws before the commit, nothing is
    changed, and with the rollback going through the call resolves to
    [false]. *)
Theorem follow_missing_target throws a b db :
  db !! b = None →
  let rf := followUser throws a b (atRest db) in
  (txCommits throws = true →
     rf.1 = Resolved true ∧
     committed rf.2 = updateById a (AddToSet Following b) db ∧
     committed rf.2 !! b = None) ∧
  (txCommits throws = false → rf.1 ≠ Resolved true ∧ committed rf.2 = db) ∧
  (txFails throws = true → throws AbortTransaction = false →
     rf.1 = Resolved false ∧ committed rf.2 = db).
Proof.
  intros Hb. simpl. split_and!.
  - intros Hc. rewrite followUser_commits by done. simpl.
    rewrite follow_effect_missing_target by done. split_and!; [done..|].
    unfold updateById. rewrite lookup_alter. case_decide; subst; by rewrite ?Hb.
  - apply followUser_fails.
  - intros Hf Ha.
    destruct (followUser_rolls_back throws a b db Hf) as (Hs & Hr & _).
    split; [by apply Hr | exact Hs].
Qed.

(** ** The reads *)

Lemma getFollowCounts_found throws userId u db :
  db !! userId = Some u →
  throws FindById = false →
  getFollowCounts throws userId (atRest db) =
    (Resolved (Some (mkFollowCount (length (followers u)) (length (following u)))),
     mkWorld db None [FindById] [db] []).
Proof. intros Hu Ht. run_request. by rewrite Ht, Hu. Qed.

Lemma getFollowCounts_missing throws userId db :
  db !! userId = None →
  (getFollowCounts throws userId (atRest db)).1 = Resolved None.
Proof. intros Hu. run_request. destruct (throws FindById); by rewrite ?Hu. Qed.

(** C9. [getFollowCounts]: for a user whose document exists (and is read
    without a storage failure) the answer carries the lengths of the
    [followers] and [following] arrays, which are the cardinalities of the
    two sets as the arrays are duplicate-free; for an id with no document
    the answer is [null] (not found), never a pair of zero counts. *)
Theorem followCounts_correct throws userId db :
  let r := (getFollowCounts throws userId (atRest db)).1 in
  (∀ u, db !! userId = Some u → throws FindById = false →
     ∃ c, r = Resolved (Some c) ∧
       followerCount c = length (followers u) ∧
       followingCount c = length (following u) ∧
       (NoDup (followers u) →
          followerCount c = size (list_to_set (followers u) : gset string)) ∧
       (NoDup (following u) →
          followingCount c = size (list_to_set (following u) : gset string))) ∧
  (db !! userId = None →
     r = Resolved None ∧ r ≠ Resolved (Some (mkFollowCount 0 0))).
Proof.
  simpl. split.
  - intros u Hu Ht. rewrite (getFollowCounts_found _ _ u) by done.
    eexists. split; [done|]. simpl. auto using length_NoDup_card.
  - intros Hu. rewrite getFollowCounts_missing by done. done.
Qed.

(** C5 (as amended). A storage failure in a read is caught, logged and
    turned into the answer of the empty case: [isFollowing] resolves to
    [false], [findFollowers] and [findFollowing] to the empty sequence and
    [getFollowCounts] to [null], whatever the collection holds.  Only the
    error log tells the failure from not-following, no followers and
    not-found. *)
Theorem read_failure_coerced throws a b db :
  (throws FindOne = true →
     isFollowing throws a b (atRest db) =
       (Resolved false,
        mkWorld db None [FindOne] [db]
          [ErrCheckingFollowing a b (StorageError FindOne)])) ∧
  (throws FindById = true →
     findFollowers throws a (atRest db) =
       (Resolved [],
        mkWorld db None [FindById] [db]
          [ErrFetchingFollowers a (StorageError FindById)]) ∧
     findFollowing throws a (atRest db) =
       (Resolved [],
        mkWorld db None [FindById] [db]
          [ErrFetchingFollowing a (StorageError FindById)]) ∧
     getFollowCounts throws a (atRest db) =
       (Resolved None,
        mkWorld db None [FindById] [db]
          [ErrFetchingCounts a (StorageError FindById)])) ∧
  (throws Find = true →
     (findFollowers throws a (atRest db)).1 = Resolved [] ∧
     (findFollowing throws a (atRest db)).1 = Resolved []).
Proof.
  split_and!.
  - intros Ht. run_request. by rewrite Ht.
  - intros Ht. run_request. by rewrite Ht.
  - intros Ht. run_request. rewrite Ht.
    destruct (throws FindById); simpl; [done|].
    split; destruct (db !! a) as [u|]; simpl; try done; by case_decide.
Qed.

(** C3. Authorization decision matrix: for an authenticated actor and a
    non-empty target id, the middleware's verdict is the specification's
    table applied to [isSelf], [isAdmin] and whether the method is DELETE,
    and to nothing else: an admin deleting itself is denied with the
    configured message, an admin is allowed otherwise, a plain user is
    allowed on itself and denied on anyone else. *)
Theorem authorization_matrix message u target m :
  target ≠ "" →
  let isSelf := bool_decide (Auth.id u = target) in
  let isAdmin := bool_decide (Auth.role u = Auth.ADMIN) in
  let isDelete := bool_decide (Auth.toUpperCase <$> m = Some "DELETE") in
  let verdict :=
    Auth.authorizeUserAction message (Auth.mkRequest (Some u) (Some target) m) in
  verdict = enact message (decide_policy isSelf isAdmin isDelete) ∧
  (isAdmin = true → isSelf = true → isDelete = true →
     verdict = Auth.Throw (Auth.mkApiError message 403 Auth.PERMISSION_DENIED)) ∧
  (isAdmin = true → isSelf && isDelete = false → verdict = Auth.Next) ∧
  (isAdmin = false → isSelf = true → verdict = Auth.Next) ∧
  (isAdmin = false → isSelf = false →
     verdict = Auth.Throw (Auth.mkApiError
       "You do not have permission to perform this action"
       403 Auth.PERMISSION_DENIED)).
Proof.
  intros Ht. destruct target as [|c target]; [done|].
  unfold Auth.authorizeUserAction. simpl.
  destruct (bool_decide (Auth.id u = _)), (bool_decide (Auth.role u = _)),
    (bool_decide (_ = Some "DELETE")); simpl; split_and!; done.
Qed.

Lemma I1b_sound db : I1b db = true → I1 db.
Proof.
  unfold I1b. rewrite forallb_forall. intros H A B uA uB HAB HA HB.
  apply elem_of_map_to_list, list_elem_of_In in HA, HB.
  specialize (H _ HA). rewrite forallb_forall in H. specialize (H _ HB).
  apply bool_decide_eq_true in H as [?|H]; done.
Qed.

Lemma noEdgeb_sound db A B : noEdgeb db A B = true → noEdge db A B.
Proof.
  unfold noEdgeb. intros [HB HA]%andb_true_iff. split; intros u Hu.
  - rewrite Hu in HB. by apply bool_decide_eq_true in HB.
  - rewrite Hu in HA. by apply bool_decide_eq_true in HA.
Qed.

(** ** The properties on the sample collection *)

Lemma dual_consistency_witness :
  I1 sampleDb ∧
  I1 (committed (followUser noFault catId annId (atRest sampleDb)).2) ∧
  I1 (committed (removeFollow commitFails bobId annId (atRest sampleDb)).2).
Proof.
  split; [apply I1b_sound; vm_compute; reflexivity|].
  split.
  - apply (dual_consistency noFault catId annId sampleDb).
    apply I1b_sound. vm_compute. reflexivity.
  - apply (dual_consistency commitFails bobId annId sampleDb).
    apply I1b_sound. vm_compute. reflexivity.
Defined.

(** C2, the claim as stated fails: with the store unavailable the first
    error comes from [startSession], before the [try], and the follow
    rejects instead of resolving to [false]; and when a write throws and the
    abort in the handler throws as well, the unfollow rejects too. *)
Lemma atomic_rollback_counterexample :
  errorBeforeCommit allFail = true ∧
  (followUser allFail catId annId (atRest sampleDb)).1
    = Rejected (StorageError StartSession) ∧
  (followUser allFail catId annId (atRest sampleDb)).1 ≠ Resolved false ∧
  errorBeforeCommit writeAndAbortFail = true ∧
  (removeFollow writeAndAbortFail bobId annId (atRest sampleDb)).1
    = Rejected (StorageError AbortTransaction) ∧
  (removeFollow writeAndAbortFail bobId annId (atRest sampleDb)).1
    ≠ Resolved false.
Proof. split_and!; done. Qed.

Lemma atomic_rollback_witness :
  txFails commitFails = true ∧
  commitFails AbortTransaction = false ∧
  (followUser commitFails catId annId (atRest sampleDb)).1 = Resolved false ∧
  committed (followUser commitFails catId annId (atRest sampleDb)).2 = sampleDb ∧
  (removeFollow commitFails bobId annId (atRest sampleDb)).1 = Resolved false ∧
  committed (removeFollow commitFails bobId annId (atRest sampleDb)).2 = sampleDb.
Proof.
  split; [reflexivity|]. split; [reflexivity|].
  pose proof (atomic_rollback commitFails catId annId sampleDb) as (H1 & H2 & _).
  pose proof (atomic_rollback commitFails bobId annId sampleDb) as (H3 & H4 & _).
  destruct (H1 eq_refl) as ([Hs _] & _).
  destruct (H2 eq_refl eq_refl) as (Hf & _).
  destruct (H3 eq_refl) as (_ & _ & [Ht _] & _).
  destruct (H4 eq_refl eq_refl) as (_ & _ & Hu & _).
  split_and!; assumption.
Defined.

Lemma authorization_matrix_witness :
  "a1" ≠ "" ∧
  Auth.authorizeUserAction Auth.defaultMessage
    (Auth.mkRequest (Some (Auth.mkAuthUser "a1" Auth.ADMIN)) (Some "a1")
       (Some "DELETE"))
  = Auth.Throw (Auth.mkApiError "Action not allowed on yourself" 403
                  Auth.PERMISSION_DENIED).
Proof.
  assert ("a1" ≠ "") as Hne by discriminate.
  split; [exact Hne|].
  pose proof (authorization_matrix Auth.defaultMessage
                (Auth.mkAuthUser "a1" Auth.ADMIN) "a1" (Some "DELETE") Hne)
    as (_ & Hrow & _).
  apply Hrow; reflexivity.
Defined.

(** C4, the claim as stated fails: zedId names no document, nothing throws,
    and yet the follow is not aborted; it resolves to [true] and has written
    zedId into the following of annId. *)
Lemma follow_missing_target_counterexample :
  sampleDb !! zedId = None ∧
  (followUser noFault annId zedId (atRest sampleDb)).1 = Resolved true ∧
  committed (followUser noFault annId zedId (atRest sampleDb)).2 !! annId
    = Some (mkUserDoc "Ann" None [bobId] [zedId]) ∧
  ¬ ((followUser noFault annId zedId (atRest sampleDb)).1 = Resolved false ∧
     committed (followUser noFault annId zedId (atRest sampleDb)).2 = sampleDb).
Proof.
  split_and!; [reflexivity..|].
  intros [H _]. vm_compute in H. discriminate H.
Qed.

Lemma follow_missing_target_witness :
  sampleDb !! zedId = None ∧
  (followUser noFault annId zedId (atRest sampleDb)).1 = Resolved true ∧
  committed (followUser noFault annId zedId (atRest sampleDb)).2
    = updateById annId (AddToSet Following zedId) sampleDb.
Proof.
  split; [reflexivity|].
  pose proof (follow_missing_target noFault annId zedId sampleDb eq_refl)
    as (Hc & _).
  destruct (Hc eq_refl) as (Hr & Hs & _). split; assumption.
Defined.

(** C5, the claim as stated fails: with the lookup throwing, [isFollowing]
    answers [false] for Bob and Ann although Bob follows Ann, the very
    answer a lookup that works gives for Cat and Ann; in the same way a
    failed read makes [findFollowers] and [findFollowing] answer the empty
    sequence and [getFollowCounts] answer [null], as for a user without
    followers and for an id without document. *)
Lemma read_failure_coerced_counterexample :
  ¬ failure_distinguishable (λ t, isFollowing t bobId annId) FindOne ∧
  ¬ failure_distinguishable (λ t, findFollowers t annId) FindById ∧
  ¬ failure_distinguishable (λ t, findFollowing t bobId) Find ∧
  ¬ failure_distinguishable (λ t, getFollowCounts t annId) FindById.
Proof.
  split_and!; intros H.
  - apply (H allFail sampleDb (<[annId := cat]> ∅)); reflexivity.
  - apply (H allFail sampleDb (<[annId := cat]> ∅)); reflexivity.
  - apply (H allFail sampleDb (<[bobId := cat]> ∅)); reflexivity.
  - apply (H allFail sampleDb ∅); reflexivity.
Qed.

Lemma read_failure_coerced_witness :
  allFail FindOne = true ∧
  (isFollowing allFail bobId annId (atRest sampleDb)).1 = Resolved false ∧
  (isFollowing noFault bobId annId (atRest sampleDb)).1 = Resolved true ∧
  (getFollowCounts allFail annId (atRest sampleDb)).1 = Resolved None ∧
  (findFollowers allFail annId (atRest sampleDb)).1 = Resolved [].
Proof.
  split; [reflexivity|].
  pose proof (read_failure_coerced allFail bobId annId sampleDb) as (H1 & _).
  pose proof (read_failure_coerced allFail annId annId sampleDb) as (_ & H2 & _).
  destruct (H2 eq_refl) as (Hf & _ & Hc).
  split_and!.
  - by rewrite (H1 eq_refl).
  - reflexivity.
  - by rewrite Hc.
  - by rewrite Hf.
Defined.

Lemma follow_idempotent_witness :
  (followUser noFault catId annId (atRest sampleDb)).1 = Resolved true ∧
  committed (followUser commitFails catId annId
    (atRest (committed (followUser noFault catId annId (atRest sampleDb)).2))).2
  = committed (followUser noFault catId annId (atRest sampleDb)).2 ∧
  committed (followUser noFault catId annId
    (atRest (committed (followUser noFault catId annId (atRest sampleDb)).2))).2
  = committed (followUser noFault catId annId (atRest sampleDb)).2.
Proof.
  split; [reflexivity|]. split.
  - apply (follow_idempotent noFault commitFails noFault catId annId sampleDb).
    reflexivity.
  - apply (follow_idempotent noFault noFault noFault catId annId sampleDb).
    reflexivity.
Defined.

Lemma unfollow_idempotent_witness :
  catId ≠ annId ∧
  noEdge sampleDb catId annId ∧
  txCommits noFault = true ∧
  (removeFollow noFault catId annId (atRest sampleDb)).1 = Resolved true ∧
  committed (removeFollow noFault catId annId (atRest sampleDb)).2 = sampleDb.
Proof.
  assert (catId ≠ annId) as Hne by discriminate.
  assert (noEdge sampleDb catId annId) as Hno
    by (apply noEdgeb_sound; vm_compute; reflexivity).
  split_and!; [exact Hne | exact Hno | reflexivity | |];
    apply (unfollow_idempotent noFault catId annId sampleDb Hne Hno eq_refl).
Defined.

Lemma followCounts_correct_witness :
  sampleDb !! annId = Some ann ∧
  sampleDb !! zedId = None ∧
  (getFollowCounts noFault zedId (atRest sampleDb)).1 = Resolved None ∧
  ∃ c, (getFollowCounts noFault annId (atRest sampleDb)).1 = Resolved (Some c) ∧
       followerCount c = 1 ∧ followingCount c = 0.
Proof.
  split; [reflexivity|]. split; [reflexivity|]. split.
  - apply (followCounts_correct noFault zedId sampleDb). reflexivity.
  - destruct (followCounts_correct noFault annId sampleDb) as [Hfound _].
    destruct (Hfound ann eq_refl eq_refl) as (c & Hc & Hers & Hing & _).
    exists c. split_and!; assumption.
Defined.

Lemma self_follow_witness :
  sampleDb !! catId = Some cat ∧
  txCommits noFault = true ∧
  (followUser noFault catId catId (atRest sampleDb)).1 = Resolved true ∧
  ∃ u', committed (followUser noFault catId catId (atRest sampleDb)).2 !! catId
          = Some u' ∧ catId ∈ followers u' ∧ catId ∈ following u'.
Proof.
  split; [reflexivity|]. split; [reflexivity|].
  apply (self_follow noFault catId cat sampleDb); reflexivity.
Defined.

(** ** Scenarios of the specification *)

Lemma isFollowing_after_follow t1 t2 a b ub db :
  db !! b = Some ub →
  (followUser t1 a b (atRest db)).1 = Resolved true →
  t2 FindOne = false →
  (isFollowing t2 a b (atRest (committed (followUser t1 a b (atRest db)).2))).1
  = Resolved true.
Proof.
  intros Hb Hr Ht.
  destruct (followUser_all_or_nothing t1 a b db) as [[_ ->]|[Hn _]]; [|done].
  run_request. rewrite Ht. simpl.
  rewrite follow_effect_lookup, Hb. simpl.
  rewrite (decide_True (P := b = b)) by done.
  rewrite decide_True; [done|]. apply elem_of_addToSet. by left.
Qed.

(** After Ann and Cat follow Bob he has two followers; after Ann unfollows
    him, one. *)
Example count_scenario :
  let db1 := committed (followUser noFault annId bobId (atRest sampleDb)).2 in
  let db2 := committed (followUser noFault catId bobId (atRest db1)).2 in
  let db3 := committed (removeFollow noFault annId bobId (atRest db2)).2 in
  (getFollowCounts noFault bobId (atRest db2)).1
    = Resolved (Some (mkFollowCount 2 1)) ∧
  (getFollowCounts noFault bobId (atRest db3)).1
    = Resolved (Some (mkFollowCount 1 1)).
Proof. split; reflexivity. Qed.

Example authorization_scenarios :
  let run who target verb :=
    Auth.authorizeUserAction Auth.defaultMessage
      (Auth.mkRequest who (Some target) (Some verb)) in
  let u1 := Some (Auth.mkAuthUser "u1" Auth.USER) in
  let a1 := Some (Auth.mkAuthUser "a1" Auth.ADMIN) in
  run u1 "u1" "UPDATE" = Auth.Next ∧
  run u1 "u2" "READ" =
    Auth.Throw (Auth.mkApiError
      "You do not have permission to perform this action" 403
      Auth.PERMISSION_DENIED) ∧
  run a1 "u2" "DELETE" = Auth.Next ∧
  run a1 "a1" "DELETE" =
    Auth.Throw (Auth.mkApiError "Action not allowed on yourself" 403
                  Auth.PERMISSION_DENIED) ∧
  run None "u2" "READ" =
    Auth.Throw (Auth.mkApiError "Unauthorized request" 401 Auth.UNAUTHORIZED).
Proof. split_and!; reflexivity. Qed.

(** * Further properties of the repository *)

(** ** What a follow or an unfollow leaves alone *)

Lemma follow_effect_framed a b db : framed a b db (follow_effect a b db).
Proof.
  split.
  - unfold follow_effect, updateById. by rewrite !dom_alter_L.
  - intros i u' Hi. rewrite follow_effect_lookup in Hi.
    destruct (db !! i) as [u|]; simplify_eq/=. exists u.
    split_and!; try done; intros; by rewrite decide_False.
Qed.

Lemma unfollow_effect_framed a b db : framed a b db (unfollow_effect a b db).
Proof.
  split.
  - unfold unfollow_effect, updateById. by rewrite !dom_alter_L.
  - intros i u' Hi. rewrite unfollow_effect_lookup in Hi.
    destruct (db !! i) as [u|]; simplify_eq/=. exists u.
    split_and!; try done; intros; by rewrite decide_False.
Qed.

Lemma framed_refl a b db : framed a b db db.
Proof. split; [done|]. intros i u Hi. exists u. done. Qed.

(** X1. Frame of the graph writes: whatever throws, [followUser a b] and
    [removeFollow a b] neither create nor delete a document (there is no
    upsert), keep every name and avatar, and can change no array other than
    the followers of [b] and the following of [a]; in particular they never
    make [b] follow [a]. *)
Theorem graph_writes_frame throws a b db :
  framed a b db (committed (followUser throws a b (atRest db)).2) ∧
  framed a b db (committed (removeFollow throws a b (atRest db)).2).
Proof.
  split.
  - destruct (followUser_all_or_nothing throws a b db) as [[_ ->]|[_ ->]];
      auto using follow_effect_framed, framed_refl.
  - destruct (removeFollow_all_or_nothing throws a b db) as [(_&_&->)|[_ ->]];
      auto using unfollow_effect_framed, framed_refl.
Qed.

(** ** Any sequence of follow and unfollow requests *)

Lemma serveGraph_cases throws rq db :
  serveGraph throws rq db = db ∨
  (∃ a b, rq = Follow a b ∧ serveGraph throws rq db = follow_effect a b db) ∨
  (∃ a b, rq = Unfollow a b ∧ a ≠ b ∧
          serveGraph throws rq db = unfollow_effect a b db).
Proof.
  destruct rq as [a b|a b]; simpl.
  - destruct (followUser_all_or_nothing throws a b db) as [[_ ->]|[_ ->]];
      [right; left; eauto | by left].
  - destruct (removeFollow_all_or_nothing throws a b db) as [(_&?&->)|[_ ->]];
      [right; right; eauto | by left].
Qed.

(** X2. Reachable collections: from a collection that satisfies I1 (dual
    consistency) and I2 (duplicate-free arrays), every collection reached by
    any sequence of follow and unfollow requests, each with any storage
    faults, satisfies both again. *)
Theorem reachable_invariants rqs db :
  I1 db → I2 db →
  I1 (serveGraphAll rqs db) ∧ I2 (serveGraphAll rqs db).
Proof.
  revert db. induction rqs as [|[throws rq] rqs IH]; intros db H1 H2; [done|].
  simpl. apply IH.
  - destruct (serveGraph_cases throws rq db)
      as [->|[(a&b&_&->)|(a&b&_&_&->)]];
      auto using I1_follow_effect, I1_unfollow_effect.
  - destruct (serveGraph_cases throws rq db)
      as [->|[(a&b&_&->)|(a&b&_&_&->)]];
      auto using I2_follow_effect, I2_unfollow_effect.
Qed.



(** ** Follow, then unfollow *)

Lemma pull_addToSet (v : string) (l : list string) :
  v ∉ l → pull v (addToSet v l) = l.
Proof.
  intros Hv. unfold addToSet. rewrite decide_False by done.
  unfold pull. rewrite filter_app. fold (pull v l). rewrite pull_absent by done.
  rewrite filter_cons_False by (intros H; by apply H). by rewrite app_nil_r.
Qed.

Lemma unfollow_follow_effect a b db :
  noEdge db a b → unfollow_effect a b (follow_effect a b db) = db.
Proof.
  intros [Hb Ha]. apply map_eq. intros i.
  rewrite unfollow_effect_lookup, follow_effect_lookup.
  destruct (db !! i) as [u|] eqn:Hi; [|done]. simpl. f_equal.
  unfold unfollowDoc, followDoc. destruct u as [n av fs fg]. simpl.
  repeat case_decide; subst; f_equal; try apply pull_addToSet.
  all: first [ by apply (Hb _ Hi) | by apply (Ha _ Hi) ].
Qed.

(** X4. Round trip: for A ≠ B with no edge from A to B, a committed
    [followUser A B] followed by a committed [removeFollow A B] gives back
    the very collection they started from, arrays in their old order,
    whether or not the two documents exist. *)
Theorem follow_unfollow_round_trip t1 t2 a b db :
  a ≠ b → noEdge db a b →
  txCommits t1 = true → txCommits t2 = true →
  serveGraphAll [(t1, Follow a b); (t2, Unfollow a b)] db = db.
Proof.
  intros Hab Hne H1 H2. simpl.
  rewrite followUser_commits by done. simpl.
  rewrite removeFollow_commits by done. simpl.
  by apply unfollow_follow_effect.
Qed.

(** ** Counts along the graph writes *)

Lemma length_addToSet_fresh (v : string) (l : list string) :
  v ∉ l → length (addToSet v l) = S (length l).
Proof.
  intros Hv. unfold addToSet. rewrite decide_False by done.
  rewrite length_app. simpl. lia.
Qed.

Lemma length_pull_NoDup (v : string) (l : list string) :
  NoDup l → v ∈ l → S (length (pull v l)) = length l.
Proof.
  intros Hl Hv. unfold pull. induction l as [|x l IH]; [by inversion Hv|].
  apply NoDup_cons in Hl as [Hx Hl].
  destruct (decide (x = v)) as [->|Hne].
  - rewrite filter_cons_False by (intros H; by apply H).
    fold (pull v l). by rewrite pull_absent.
  - rewrite filter_cons_True by done. simpl. f_equal. apply IH; [done|].
    apply elem_of_cons in Hv as [->|]; done.
Qed.

(** X5. Counts follow the edges: for distinct users A and B that both have
    a document, a committed [followUser A B] on an absent edge raises the
    follower count of B and the following count of A by exactly one and
    leaves their other counts; on duplicate-free arrays a committed
    [removeFollow A B] on a present edge lowers them by exactly one. *)
Theorem counts_follow_edges t a b ua ub db :
  a ≠ b →
  db !! a = Some ua →
  db !! b = Some ub →
  txCommits t = true →
  let count i s := (getFollowCounts noFault i (atRest s)).1 in
  let dbf := committed (followUser t a b (atRest db)).2 in
  let dbu := committed (removeFollow t a b (atRest db)).2 in
  (noEdge db a b →
     count b dbf = Resolved (Some (mkFollowCount
       (S (length (followers ub))) (length (following ub)))) ∧
     count a dbf = Resolved (Some (mkFollowCount
       (length (followers ua)) (S (length (following ua)))))) ∧
  (a ∈ followers ub → b ∈ following ua →
   NoDup (followers ub) → NoDup (following ua) →
     ∃ cb ca, count b dbu = Resolved (Some cb) ∧
              count a dbu = Resolved (Some ca) ∧
       S (followerCount cb) = length (followers ub) ∧
       followingCount cb = length (following ub) ∧
       followerCount ca = length (followers ua) ∧
       S (followingCount ca) = length (following ua)).
Proof.
  intros Hab Ha Hb Hc. simpl. split.
  - intros [Hnb Hna].
    rewrite followUser_commits by done. simpl.
    rewrite (getFollowCounts_found _ b (followDoc a b b ub))
      by (by rewrite ?follow_effect_lookup, ?Hb).
    rewrite (getFollowCounts_found _ a (followDoc a b a ua))
      by (by rewrite ?follow_effect_lookup, ?Ha).
    simpl. repeat case_decide; try done.
    rewrite !length_addToSet_fresh by eauto. done.
  - intros Hin Hin' Hnd Hnd'.
    rewrite removeFollow_commits by done. simpl.
    rewrite (getFollowCounts_found _ b (unfollowDoc a b b ub))
      by (by rewrite ?unfollow_effect_lookup, ?Hb).
    rewrite (getFollowCounts_found _ a (unfollowDoc a b a ua))
      by (by rewrite ?unfollow_effect_lookup, ?Ha).
    do 2 eexists. split; [done|]. split; [done|]. simpl.
    repeat case_decide; try done.
    rewrite !length_pull_NoDup by done. done.
Qed.

(** ** isFollowing *)

Lemma isFollowing_run t a b db :
  t FindOne = false →
  isFollowing t a b (atRest db) =
    (Resolved (bool_decide (is_Some
       (match db !! b with
        | Some u => if decide (a ∈ followers u) then Some u else None
        | None => None
        end))),
     mkWorld db None [FindOne] [db] []).
Proof. intros Ht. run_request. by rewrite Ht. Qed.

(** X6. [isFollowing]: when the lookup does not throw, the answer is [true]
    exactly when the target has a document whose followers hold the actor,
    so [false] for a target without document; on a collection with dual
    consistency and for two distinct users with documents this is exactly
    when the actor's following holds the target. *)
Theorem isFollowing_spec t a b db :
  t FindOne = false →
  ∃ r, (isFollowing t a b (atRest db)).1 = Resolved r ∧
    (r = true ↔ ∃ ub, db !! b = Some ub ∧ a ∈ followers ub) ∧
    (db !! b = None → r = false) ∧
    (I1 db → a ≠ b → ∀ ua ub, db !! a = Some ua → db !! b = Some ub →
       (r = true ↔ b ∈ following ua)).
Proof.
  intros Ht. rewrite isFollowing_run by done. eexists. split; [done|].
  assert (∀ r : bool, r = bool_decide (is_Some
            (match db !! b with
             | Some u => if decide (a ∈ followers u) then Some u else None
             | None => None
             end)) →
          (r = true ↔ ∃ ub, db !! b = Some ub ∧ a ∈ followers ub)) as Hchar.
  { intros r ->. rewrite bool_decide_eq_true.
    destruct (db !! b) as [u|]; [case_decide|].
    - split; [intros _; eauto | intros _; by eexists].
    - split; [by intros [? ?] | intros (ub & ? & ?); by simplify_eq].
    - split; [by intros [? ?] | by intros (ub & ? & ?)]. }
  split_and!.
  - by apply Hchar.
  - intros Hb. rewrite Hb. apply bool_decide_eq_false. by intros [? ?].
  - intros HI Hab ua ub Ha Hb. rewrite (Hchar _ eq_refl).
    rewrite <- (HI a b ua ub Hab Ha Hb).
    split; [intros (u & ? & ?); by simplify_eq | eauto].
Qed.

(** X7. The edge as [isFollowing] sees it: after a [followUser A B] that
    resolved to [true], with B having a document, [isFollowing A B] answers
    [true]; after a [removeFollow A B] that resolved to [true] it answers
    [false]. *)
Theorem isFollowing_tracks_writes t1 t2 a b db :
  t2 FindOne = false →
  ((followUser t1 a b (atRest db)).1 = Resolved true →
   is_Some (db !! b) →
   (isFollowing t2 a b
      (atRest (committed (followUser t1 a b (atRest db)).2))).1
   = Resolved true) ∧
  ((removeFollow t1 a b (atRest db)).1 = Resolved true →
   (isFollowing t2 a b
      (atRest (committed (removeFollow t1 a b (atRest db)).2))).1
   = Resolved false).
Proof.
  intros Ht. split.
  - intros Hr [ub Hb]. by eapply isFollowing_after_follow.
  - intros Hr.
    destruct (removeFollow_all_or_nothing t1 a b db) as [(_&_&->)|[Hn _]];
      [|done].
    rewrite isFollowing_run by done. simpl. f_equal.
    apply bool_decide_eq_false. intros [u Hu].
    destruct (unfollow_effect_noEdge a b db) as [Hb _].
    destruct (unfollow_effect a b db !! b) as [ub|] eqn:E; [|done].
    case_decide; [|done]. by apply (Hb ub).
Qed.

(** ** The two lists *)

(** What [User.find({ _id: { $in: ids } })] returns, as summaries. *)
Lemma find_summaries (ids : list string) (db : Store) :
  let l := toFollowUser <$> filter (λ p, p.1 ∈ ids) (map_to_list db) in
  NoDup (fu_id <$> l) ∧
  (∀ x, x ∈ fu_id <$> l ↔ x ∈ ids ∧ is_Some (db !! x)) ∧
  (∀ s, s ∈ l → ∃ d, db !! fu_id s = Some d ∧
                     fu_fullName s = fullName d ∧ fu_avatar s = avatar d) ∧
  (NoDup ids → length l = length (resolving db ids)).
Proof.
  simpl.
  assert (fu_id <$> (toFollowUser <$>
            filter (λ p, p.1 ∈ ids) (map_to_list db))
          = (filter (λ p : string * UserDoc, p.1 ∈ ids) (map_to_list db)).*1)
    as Eid.
  { rewrite <- list_fmap_compose. by apply list_fmap_ext. }
  assert (NoDup (filter (λ p : string * UserDoc, p.1 ∈ ids)
                   (map_to_list db)).*1) as Hnd.
  { eapply sublist_NoDup; [apply (NoDup_fst_map_to_list db)|].
    apply fmap_sublist, sublist_filter. }
  assert (∀ x, x ∈ (filter (λ p : string * UserDoc, p.1 ∈ ids)
                      (map_to_list db)).*1 ↔ x ∈ ids ∧ is_Some (db !! x))
    as Hel.
  { intros x. rewrite list_elem_of_fmap. split.
    - intros ([i d] & -> & Hin). apply list_elem_of_filter in Hin as [Hi Hd].
      apply elem_of_map_to_list in Hd. simpl in *. eauto.
    - intros [Hi [d Hd]]. exists (x, d). split; [done|].
      apply list_elem_of_filter. split; [done|].
      by apply elem_of_map_to_list. }
  split_and!.
  - by rewrite Eid.
  - intros x. by rewrite Eid.
  - intros s Hs. apply list_elem_of_fmap in Hs as ([i d] & -> & Hin).
    apply list_elem_of_filter in Hin as [_ Hd].
    apply elem_of_map_to_list in Hd. exists d. done.
  - intros Hids. rewrite length_fmap.
    rewrite <- (length_fmap fst). apply Permutation_length. unfold resolving.
    apply NoDup_Permutation; [done|by apply NoDup_filter|].
    intros x. rewrite Hel, list_elem_of_filter. tauto.
Qed.

Lemma filter_no_ids (l : list (string * UserDoc)) :
  filter (λ p, p.1 ∈ @nil string) l = [].
Proof.
  induction l as [|p l IH]; [done|].
  rewrite filter_cons_False; [done|]. apply not_elem_of_nil.
Qed.

Lemma findFollowers_run t a u db :
  db !! a = Some u → t FindById = false → t Find = false →
  (findFollowers t a (atRest db)).1 =
    Resolved (toFollowUser <$>
      filter (λ p, p.1 ∈ followers u) (map_to_list db)).
Proof.
  intros Hu H1 H2. run_request. rewrite H1, Hu. simpl.
  case_decide as Hlen; simpl.
  - apply nil_length_inv in Hlen. rewrite Hlen. by rewrite filter_no_ids.
  - by rewrite H2.
Qed.

Lemma findFollowing_run t a u db :
  db !! a = Some u → t FindById = false → t Find = false →
  (findFollowing t a (atRest db)).1 =
    Resolved (toFollowUser <$>
      filter (λ p, p.1 ∈ following u) (map_to_list db)).
Proof.
  intros Hu H1 H2. run_request. rewrite H1, Hu. simpl.
  case_decide as Hlen; simpl.
  - apply nil_length_inv in Hlen. rewrite Hlen. by rewrite filter_no_ids.
  - by rewrite H2.
Qed.

(** X8. [findFollowers] and [findFollowing], for a user with a document and
    with no call throwing: the summaries returned are those of exactly the
    ids in the array that have a document of their own (an id without
    document is dropped without notice), each id once even if the array
    repeats it, each with the name and avatar of its document. *)
Theorem lists_hold_the_resolving_ids t a u db :
  db !! a = Some u → t FindById = false → t Find = false →
  ∃ lers ling,
    (findFollowers t a (atRest db)).1 = Resolved lers ∧
    (findFollowing t a (atRest db)).1 = Resolved ling ∧
    NoDup (fu_id <$> lers) ∧ NoDup (fu_id <$> ling) ∧
    (∀ x, x ∈ fu_id <$> lers ↔ x ∈ followers u ∧ is_Some (db !! x)) ∧
    (∀ x, x ∈ fu_id <$> ling ↔ x ∈ following u ∧ is_Some (db !! x)) ∧
    (∀ s, s ∈ (lers ++ ling)%list →
       ∃ d, db !! fu_id s = Some d ∧
            fu_fullName s = fullName d ∧ fu_avatar s = avatar d).
Proof.
  intros Hu H1 H2.
  destruct (find_summaries (followers u) db) as (N1 & E1 & D1 & _).
  destruct (find_summaries (following u) db) as (N2 & E2 & D2 & _).
  do 2 eexists.
  rewrite (findFollowers_run _ _ u), (findFollowing_run _ _ u) by done.
  split_and!; try done.
  intros s [Hs|Hs]%elem_of_app; auto.
Qed.

Lemma length_filter_all {A} (P : A → Prop) `{∀ x, base.Decision (P x)}
    (l : list A) :
  length (filter P l) = length l ↔ Forall P l.
Proof.
  induction l as [|x l IH]; [by split; [constructor|]|].
  destruct (decide (P x)) as [HP|HP].
  - rewrite filter_cons_True by done. simpl. rewrite Forall_cons.
    split; [intros [=E]; split; [done|by apply IH] | intros [_ Hl]].
    f_equal. by apply IH.
  - rewrite filter_cons_False by done. simpl. rewrite Forall_cons.
    split; [|by intros [? _]].
    intros E. pose proof (length_filter P l). lia.
Qed.

(** X9. Lists against counts: for a user whose arrays are duplicate-free,
    the list [findFollowing] returns is as long as the number of followed
    ids that have a document, which is at most the [followingCount] that
    [getFollowCounts] reports, and equal to it only when every followed id
    has a document; likewise for [findFollowers] and [followerCount]. *)
Theorem lists_shorter_than_counts a u db :
  db !! a = Some u →
  NoDup (followers u) → NoDup (following u) →
  ∃ lers ling c,
    (findFollowers noFault a (atRest db)).1 = Resolved lers ∧
    (findFollowing noFault a (atRest db)).1 = Resolved ling ∧
    (getFollowCounts noFault a (atRest db)).1 = Resolved (Some c) ∧
    length lers = length (resolving db (followers u)) ∧
    length ling = length (resolving db (following u)) ∧
    (length lers ≤ followerCount c)%nat ∧
    (length ling ≤ followingCount c)%nat ∧
    (length lers = followerCount c ↔
       ∀ x, x ∈ followers u → is_Some (db !! x)) ∧
    (length ling = followingCount c ↔
       ∀ x, x ∈ following u → is_Some (db !! x)).
Proof.
  intros Hu Ners Ning.
  destruct (find_summaries (followers u) db) as (_ & _ & _ & L1).
  destruct (find_summaries (following u) db) as (_ & _ & _ & L2).
  do 3 eexists.
  rewrite (findFollowers_run _ _ u), (findFollowing_run _ _ u),
    (getFollowCounts_found _ _ u) by done.
  split_and!; try done; simpl.
  - by apply L1.
  - by apply L2.
  - rewrite L1 by done. apply length_filter.
  - rewrite L2 by done. apply length_filter.
  - rewrite L1 by done. unfold resolving.
    rewrite length_filter_all, Forall_forall. done.
  - rewrite L2 by done. unfold resolving.
    rewrite length_filter_all, Forall_forall. done.
Qed.

(** X10. The second query is made only when needed: when the user has no
    document, or has one with an empty array, [findFollowers] and
    [findFollowing] answer the empty sequence after the single lookup of the
    user, without querying the summaries (whether or not that query would
    throw). *)
Theorem lists_short_circuit t a db :
  t FindById = false →
  (db !! a = None ∨ (∃ u, db !! a = Some u ∧ followers u = []) →
     (findFollowers t a (atRest db)).1 = Resolved [] ∧
     calls (findFollowers t a (atRest db)).2 = [FindById]) ∧
  (db !! a = None ∨ (∃ u, db !! a = Some u ∧ following u = []) →
     (findFollowing t a (atRest db)).1 = Resolved [] ∧
     calls (findFollowing t a (atRest db)).2 = [FindById]).
Proof.
  intros Ht. split; intros [Hn|(u & Hu & He)]; run_request;
    rewrite Ht, ?Hn, ?Hu; simpl; rewrite ?He; done.
Qed.

(** X11. The reads only read: [isFollowing], [findFollowers],
    [findFollowing] and [getFollowCounts] always resolve (they never
    reject, whatever throws), leave the collection as it is, open no
    session or transaction, and make at most two calls, all lookups. *)
Theorem reads_only_read t a b db :
  readOnly db (isFollowing t a b (atRest db)) ∧
  readOnly db (findFollowers t a (atRest db)) ∧
  readOnly db (findFollowing t a (atRest db)) ∧
  readOnly db (getFollowCounts t a (atRest db)).
Proof.
  unfold readOnly. split_and!; run_request; split_faults t.
  all: repeat (destruct (db !! _) as [?|]; simpl).
  all: repeat (case_decide; simpl).
  all: split_faults t.
  all: first [ by eexists | done | lia | solve [each_observed] ].
Qed.

(** ** Sessions and the error log *)

(** X12. The session of a graph write is ended exactly when the call
    resolves: a call that rejects (the transaction could not be started, or
    the abort threw) never reaches [endSession]; and a transaction is left
    in flight only when [abortTransaction] itself has thrown. *)
Theorem session_ended_iff_resolved throws a b db :
  let rf := followUser throws a b (atRest db) in
  let ru := removeFollow throws a b (atRest db) in
  ((∃ r, rf.1 = Resolved r) ↔ EndSession ∈ calls rf.2) ∧
  (a ≠ b → ((∃ r, ru.1 = Resolved r) ↔ EndSession ∈ calls ru.2)) ∧
  (txn rf.2 ≠ None → throws AbortTransaction = true) ∧
  (txn ru.2 ≠ None → throws AbortTransaction = true).
Proof.
  simpl. split_and!.
  - run_request. split_faults throws; split; intros H;
      first [ by eexists
            | by destruct H
            | apply list_elem_of_In; simpl; tauto
            | apply list_elem_of_In in H; simpl in H; intuition discriminate ].
  - intros Hab. unfold removeFollow. rewrite decide_False by done.
    run_request. split_faults throws; split; intros H;
      first [ by eexists
            | by destruct H
            | apply list_elem_of_In; simpl; tauto
            | apply list_elem_of_In in H; simpl in H; intuition discriminate ].
  - run_request. split_faults throws; done.
  - unfold removeFollow. case_decide; [done|].
    run_request. split_faults throws; done.
Qed.

(** X13. What reaches the error log: a graph write that resolves to [false]
    through its handler has logged exactly one entry, naming the two ids
    and the error of the write or commit that threw; a call that resolves
    to [true] or that rejects has logged nothing, and neither has the
    refused [removeFollow A A]. *)
Theorem graph_write_log throws a b db :
  let rf := followUser throws a b (atRest db) in
  let ru := removeFollow throws a b (atRest db) in
  (rf.1 = Resolved false →
     ∃ c, logs rf.2 = [ErrFollowing b a (StorageError c)] ∧ throws c = true ∧
          (c = FindByIdAndUpdate Followers ∨ c = FindByIdAndUpdate Following ∨
           c = CommitTransaction)) ∧
  (rf.1 ≠ Resolved false → logs rf.2 = []) ∧
  (a ≠ b → ru.1 = Resolved false →
     ∃ c, logs ru.2 = [ErrRemovingFollow a b (StorageError c)] ∧
          throws c = true ∧
          (c = FindByIdAndUpdate Followers ∨ c = FindByIdAndUpdate Following ∨
           c = CommitTransaction)) ∧
  (a ≠ b → ru.1 ≠ Resolved false → logs ru.2 = []) ∧
  (a = b → ru.1 = Resolved false ∧ logs ru.2 = []).
Proof.
  simpl. split_and!.
  - run_request. split_faults throws; intros H; try done; eauto 10.
  - run_request. split_faults throws; intros H; done.
  - intros Hab. unfold removeFollow. rewrite decide_False by done.
    run_request. split_faults throws; intros H; try done; eauto 10.
  - intros Hab. unfold removeFollow. rewrite decide_False by done.
    run_request. split_faults throws; intros H; done.
  - intros ->. by rewrite removeFollow_self.
Qed.

(** ** deleteById *)

(** X14. [deleteById]: the answer is [true] exactly when the call did not
    throw and a document had the id, so [false] stands both for "no such
    user" and for a storage failure.  A call that throws changes nothing; a
    call that goes through leaves no document with that id and every other
    document untouched, and deleting the same id again answers [false]. *)
Theorem deleteById_spec throws id db :
  let r := deleteById throws id db in
  (answer r = true ↔
     throws FindByIdAndDelete = false ∧ is_Some (db !! id)) ∧
  (throws FindByIdAndDelete = true →
     stored r = db ∧ crudLogs r = [ErrDeleting id]) ∧
  (throws FindByIdAndDelete = false →
     stored r !! id = None ∧
     (∀ j, j ≠ id → stored r !! j = db !! j) ∧
     crudLogs r = [] ∧
     ∀ throws', answer (deleteById throws' id (stored r)) = false).
Proof.
  simpl. unfold deleteById. destruct (throws FindByIdAndDelete); simpl.
  - split_and!; [split; [done|by intros [? _]] | done | done].
  - split_and!.
    + rewrite bool_decide_eq_true. split; [done|by intros [_ ?]].
    + done.
    + intros _. split_and!.
      * apply lookup_delete_eq.
      * intros j Hj. by apply lookup_delete_ne.
      * done.
      * intros throws'. destruct (throws' FindByIdAndDelete); simpl; [done|].
        apply bool_decide_eq_false. rewrite lookup_delete_eq. by intros [? ?].
Qed.

Lemma I1_delete b db : I1 db → I1 (delete b db).
Proof.
  intros HI A B uA uB HAB HA HB.
  apply lookup_delete_Some in HA as [_ HA].
  apply lookup_delete_Some in HB as [_ HB]. by apply HI.
Qed.

(** X15. Deleting a user does not unfollow: [deleteById B] edits no other
    document, so a user A who followed B keeps B in its following array.
    Afterwards [getFollowCounts A] answers as before and still counts B,
    while [findFollowing A] no longer lists B and [isFollowing A B] answers
    [false]; dual consistency between the remaining users is kept. *)
Theorem deleteById_leaves_references throws a b ua db :
  throws FindByIdAndDelete = false →
  a ≠ b →
  db !! a = Some ua →
  b ∈ following ua →
  let db' := stored (deleteById throws b db) in
  db' !! a = Some ua ∧
  (getFollowCounts noFault a (atRest db')).1
    = (getFollowCounts noFault a (atRest db)).1 ∧
  (∀ l, (findFollowing noFault a (atRest db')).1 = Resolved l →
        b ∉ fu_id <$> l) ∧
  (isFollowing noFault a b (atRest db')).1 = Resolved false ∧
  (I1 db → I1 db').
Proof.
  intros Ht Hab Ha Hin. cbv zeta.
  assert (stored (deleteById throws b db) = delete b db) as ->
    by (unfold deleteById; by rewrite Ht).
  assert (delete b db !! a = Some ua) as Ha'
    by (by rewrite lookup_delete_ne).
  split_and!.
  - done.
  - by rewrite !(getFollowCounts_found _ _ ua).
  - intros l. rewrite (findFollowing_run _ _ ua) by done. intros [= <-].
    destruct (find_summaries (following ua) (delete b db)) as (_ & E & _).
    rewrite E. rewrite lookup_delete_eq. by intros [_ [? ?]].
  - rewrite isFollowing_run by done. simpl. by rewrite lookup_delete_eq.
  - apply I1_delete.
Qed.

(** ** updateAccountById *)

(** X16. [updateAccountById]: the answer is the very [updates] it was given
    exactly when the call did not throw and a document had the id, and
    [null] otherwise; with [null] nothing has changed (no document is
    created for an unknown id), and in every case the set of documents is
    the same and only the document with that id can differ, by the
    [$set]. *)
Theorem updateAccountById_spec {U : Type} (applySet : U → UserDoc → UserDoc)
    throws id (updates : U) db :
  let r := updateAccountById throws U applySet id updates db in
  (answer r = Some updates ↔
     throws FindByIdAndSet = false ∧ is_Some (db !! id)) ∧
  (answer r = None ∨ answer r = Some updates) ∧
  (answer r = None → stored r = db) ∧
  dom (stored r) = dom db ∧
  (∀ j, j ≠ id → stored r !! j = db !! j) ∧
  (∀ u, answer r = Some updates → db !! id = Some u →
        stored r !! id = Some (applySet updates u)).
Proof.
  simpl. unfold updateAccountById.
  destruct (throws FindByIdAndSet); simpl.
  { split_and!; [split; [done|by intros [? _]] | by left | done..]. }
  assert (alter (applySet updates) id db !! id
          = applySet updates <$> db !! id) as Hid by apply lookup_alter_eq.
  split_and!.
  - destruct (db !! id) as [u|]; simpl.
    + split; [done|by intros [_ ?]].
    + split; [done|]. by intros [_ [? ?]].
  - destruct (db !! id); simpl; auto.
  - destruct (db !! id) as [u|] eqn:Hu; simpl; [done|].
    intros _. apply map_eq. intros j. rewrite lookup_alter.
    case_decide; subst; by rewrite ?Hu.
  - apply dom_alter_L.
  - intros j Hj. by apply lookup_alter_ne.
  - intros u _ Hu. by rewrite Hid, Hu.
Qed.

(** ** findById *)


(** * Further properties of the authorization middleware *)

(** X18. Order of the checks: without an authenticated user the verdict is
    401 "Unauthorized request", whatever the target and the method; with a
    user but a missing or empty target id it is 400 "Target user not
    specified", whatever the role.  Conversely a 401 is thrown only for a
    missing user, a 400 only for a missing target, and every other refusal
    is a 403 with the code PERMISSION_DENIED. *)
Theorem authorization_checks_in_order message req :
  let verdict := Auth.authorizeUserAction message req in
  (Auth.user req = None →
     verdict = Auth.Throw
       (Auth.mkApiError "Unauthorized request" 401 Auth.UNAUTHORIZED)) ∧
  (is_Some (Auth.user req) →
   Auth.params_id req = None ∨ Auth.params_id req = Some "" →
     verdict = Auth.Throw
       (Auth.mkApiError "Target user not specified" 400 Auth.BAD_REQUEST)) ∧
  (∀ e, verdict = Auth.Throw e →
     (Auth.statusCode e = 401 ↔ Auth.user req = None) ∧
     (Auth.statusCode e = 400 ↔
        is_Some (Auth.user req) ∧
        (Auth.params_id req = None ∨ Auth.params_id req = Some "")) ∧
     (Auth.statusCode e = 403 ↔ Auth.code e = Auth.PERMISSION_DENIED) ∧
     (Auth.statusCode e = 401 ∨ Auth.statusCode e = 400 ∨
      Auth.statusCode e = 403)).
Proof.
  destruct req as [[u|] [[|c t]|] m]; simpl; unfold Auth.authorizeUserAction;
    simpl.
  all: repeat match goal with
              | |- context [bool_decide ?P] => destruct (bool_decide P); simpl
              end.
  all: split_and!; try done; try (by intros [? ?]);
    try (intros ? [H|H]; done).
  all: intros e [= <-]; simpl; split_and!; try (split; intros; done); auto.
  all: try (split; [done|]; intros [[? ?] [?|?]]; done).
  all: try (split; [done|]; intros [[? ?] ?]; done).
  all: try (split; [intros _; split; [by eexists|auto] | done]).
Qed.

Lemma upperChar_idemp c : Auth.upperChar (Auth.upperChar c) = Auth.upperChar c.
Proof.
  destruct c as [[] [] [] [] [] [] [] []]; vm_compute; reflexivity.
Qed.

Lemma toUpperCase_idemp s :
  Auth.toUpperCase (Auth.toUpperCase s) = Auth.toUpperCase s.
Proof.
  induction s as [|c s IH]; [done|]. simpl. by rewrite upperChar_idemp, IH.
Qed.

(** X19. The method is compared without regard to case: the verdict for a
    method is the verdict for its upper-case form, so "delete" is refused to
    an admin on itself just as "DELETE" is; a request without method is
    never taken for a DELETE. *)
Theorem authorization_method_case message who target m u :
  Auth.authorizeUserAction message (Auth.mkRequest who target (Some m))
  = Auth.authorizeUserAction message
      (Auth.mkRequest who target (Some (Auth.toUpperCase m))) ∧
  (Auth.role u = Auth.ADMIN → Auth.id u ≠ "" →
     Auth.authorizeUserAction message
       (Auth.mkRequest (Some u) (Some (Auth.id u)) (Some "delete"))
     = Auth.Throw (Auth.mkApiError message 403 Auth.PERMISSION_DENIED) ∧
     Auth.authorizeUserAction message
       (Auth.mkRequest (Some u) (Some (Auth.id u)) None)
     = Auth.Next).
Proof.
  split.
  - unfold Auth.authorizeUserAction. simpl. by rewrite toUpperCase_idemp.
  - intros Hr Hid. unfold Auth.authorizeUserAction. simpl.
    destruct (Auth.id u) as [|c t] eqn:E; [done|].
    rewrite Hr. rewrite !bool_decide_eq_true_2 by done. done.
Qed.

(** * Properties of the serverless entry point *)

Lemma serve_settled connectOk app ok reqs s :
  Server.initPromise s = Some ok →
  let out := Server.serve connectOk app reqs s in
  Server.initPromise out.2 = Some ok ∧
  Server.connects out.2 = Server.connects s ∧
  (ok = false →
     out.1 = (λ _, Server.InternalServerError) <$> reqs ∧
     Server.appCalls out.2 = Server.appCalls s) ∧
  (ok = true →
     out.1 = (λ req, match app req with
                     | Some r => Server.Handled r
                     | None => Server.InternalServerError
                     end) <$> reqs ∧
     Server.appCalls out.2 = (Server.appCalls s ++ reqs)%list ∧
     Server.logs out.2 =
       (Server.logs s ++
        flat_map (λ req, match app req with
                         | Some _ => []
                         | None => [Server.HandlerError]
                         end) reqs)%list).
Proof.
  revert s. induction reqs as [|req reqs IH]; intros s Hs; simpl.
  { split_and!; try done. intros _. by rewrite !app_nil_r. }
  unfold Server.handler, Server.init. rewrite Hs.
  destruct ok; simpl.
  - destruct (app req) as [r|] eqn:Happ; simpl.
    + destruct (Server.serve connectOk app reqs _) as [rs s2] eqn:E.
      specialize (IH (Server.mkState (Server.initPromise s) (Server.connects s)
                        (Server.appCalls s ++ [req]) (Server.logs s)) Hs).
      rewrite E in IH. simpl in *. destruct IH as (I1' & I2' & _ & I4).
      destruct (I4 eq_refl) as (-> & -> & ->).
      split_and!; try done. intros _.
      by rewrite ?Happ, <- ?app_assoc.
    + destruct (Server.serve connectOk app reqs _) as [rs s2] eqn:E.
      specialize (IH (Server.logError
                        (Server.mkState (Server.initPromise s)
                           (Server.connects s) (Server.appCalls s ++ [req])
                           (Server.logs s))) Hs).
      rewrite E in IH. simpl in *. destruct IH as (I1' & I2' & _ & I4).
      destruct (I4 eq_refl) as (-> & -> & ->).
      split_and!; try done. intros _.
      by rewrite ?Happ, <- ?app_assoc.
  - destruct (Server.serve connectOk app reqs _) as [rs s2] eqn:E.
    specialize (IH (Server.logError s) Hs).
    rewrite E in IH. simpl in *. destruct IH as (I1' & I2' & I3 & _).
    destruct (I3 eq_refl) as (-> & ->).
    split_and!; done.
Qed.

Lemma serve_first connectOk app req :
  let ok := connectOk 0 in
  let s1 := (Server.handler connectOk app req Server.fresh).2 in
  Server.initPromise s1 = Some ok ∧ Server.connects s1 = 1 ∧
  Server.appCalls s1 = (if ok then [req] else []) ∧
  (Server.handler connectOk app req Server.fresh).1 =
    (if ok then match app req with
                | Some r => Server.Handled r
                | None => Server.InternalServerError
                end
     else Server.InternalServerError) ∧
  Server.logs s1 =
    (if ok then Server.AppInitialized ::
                match app req with
                | Some _ => []
                | None => [Server.HandlerError]
                end
     else [Server.HandlerError]).
Proof.
  simpl. unfold Server.handler, Server.init. simpl.
  destruct (connectOk 0); simpl; [destruct (app req); simpl|]; done.
Qed.

(** X20. The database is connected once per instance: however many
    requests an instance serves, and however the connection attempt ends,
    [connectDB] is called exactly once, by the first request. *)
Theorem connects_once connectOk app reqs :
  Server.connects (Server.serve connectOk app reqs Server.fresh).2
  = Nat.min 1 (length reqs).
Proof.
  destruct reqs as [|req reqs]; [done|]. simpl.
  destruct (Server.handler connectOk app req Server.fresh) as [r s1] eqn:E1.
  destruct (serve_first connectOk app req) as (Hp & Hc & _).
  rewrite E1 in Hp, Hc. simpl in *.
  destruct (Server.serve connectOk app reqs s1) as [rs s2] eqn:E2.
  destruct (serve_settled connectOk app _ reqs s1 Hp) as (_ & Hc' & _).
  rewrite E2 in Hc'. simpl in *. by rewrite Hc', Hc.
Qed.

(** X21. A failed initialisation is never retried: when the first
    [connectDB] fails, that request and every later one on the instance is
    answered 500, nothing is ever handed to [app], and no second connection
    is attempted, even if it would succeed. *)
Theorem failed_init_poisons_instance connectOk app reqs :
  connectOk 0 = false →
  let out := Server.serve connectOk app reqs Server.fresh in
  out.1 = (λ _, Server.InternalServerError) <$> reqs ∧
  Server.appCalls out.2 = [] ∧
  (Server.connects out.2 ≤ 1)%nat.
Proof.
  intros H0. destruct reqs as [|req reqs]; [simpl; split_and!; [done..|lia]|].
  simpl.
  destruct (Server.handler connectOk app req Server.fresh) as [r s1] eqn:E1.
  destruct (serve_first connectOk app req) as (Hp & Hc & Ha & Hr & _).
  rewrite E1, H0 in *. simpl in *.
  destruct (Server.serve connectOk app reqs s1) as [rs s2] eqn:E2.
  destruct (serve_settled connectOk app _ reqs s1 Hp) as (_ & Hc' & Hf & _).
  rewrite E2 in *. simpl in *. destruct (Hf eq_refl) as [-> ->].
  rewrite Hr, Ha, Hc', Hc. done.
Qed.

(** X22. After a successful initialisation every request is handed to
    [app], in order; a request gets a 500 exactly when [app] throws on it;
    "App initialized" is logged once, followed by one error line per
    request on which [app] threw. *)
Theorem initialised_instance_forwards connectOk app req reqs :
  connectOk 0 = true →
  let out := Server.serve connectOk app (req :: reqs) Server.fresh in
  out.1 = (λ req, match app req with
                  | Some r => Server.Handled r
                  | None => Server.InternalServerError
                  end) <$> (req :: reqs) ∧
  Server.appCalls out.2 = req :: reqs ∧
  Server.logs out.2 =
    Server.AppInitialized ::
    flat_map (λ req, match app req with
                     | Some _ => []
                     | None => [Server.HandlerError]
                     end) (req :: reqs).
Proof.
  intros H0. simpl.
  destruct (Server.handler connectOk app req Server.fresh) as [r s1] eqn:E1.
  destruct (serve_first connectOk app req) as (Hp & Hc & Ha & Hr & Hl).
  rewrite E1, H0 in *. simpl in *.
  destruct (Server.serve connectOk app reqs s1) as [rs s2] eqn:E2.
  destruct (serve_settled connectOk app _ reqs s1 Hp) as (_ & _ & _ & Hf).
  rewrite E2 in *. simpl in *. destruct (Hf eq_refl) as (-> & -> & ->).
  rewrite Hr, Ha, Hl. split_and!; [done..|].
  by destruct (app req).
Qed.

(** * The further properties on sample inputs *)

Lemma I2b_sound db : I2b db = true → I2 db.
Proof.
  unfold I2b. rewrite forallb_forall. intros H i u Hu.
  apply elem_of_map_to_list, list_elem_of_In in Hu.
  specialize (H _ Hu). by apply bool_decide_eq_true in H.
Qed.

Lemma reachable_invariants_witness :
  I1 sampleDb ∧ I2 sampleDb ∧
  I1 (serveGraphAll sampleRequests sampleDb) ∧
  I2 (serveGraphAll sampleRequests sampleDb).
Proof.
  assert (I1 sampleDb) as H1 by (apply I1b_sound; vm_compute; reflexivity).
  assert (I2 sampleDb) as H2 by (apply I2b_sound; vm_compute; reflexivity).
  split; [exact H1|]. split; [exact H2|].
  exact (reachable_invariants sampleRequests sampleDb H1 H2).
Defined.


Lemma follow_unfollow_round_trip_witness :
  catId ≠ annId ∧ noEdge sampleDb catId annId ∧
  serveGraphAll [(noFault, Follow catId annId); (noFault, Unfollow catId annId)]
    sampleDb = sampleDb.
Proof.
  assert (catId ≠ annId) as Hne by discriminate.
  assert (noEdge sampleDb catId annId) as Hno
    by (apply noEdgeb_sound; vm_compute; reflexivity).
  split; [exact Hne|]. split; [exact Hno|].
  exact (follow_unfollow_round_trip noFault noFault catId annId sampleDb
           Hne Hno eq_refl eq_refl).
Defined.

Lemma counts_follow_edges_witness :
  (getFollowCounts noFault annId
     (atRest (committed (followUser noFault catId annId (atRest sampleDb)).2))).1
  = Resolved (Some (mkFollowCount 2 0)) ∧
  ∃ cb, (getFollowCounts noFault annId
           (atRest (committed
              (removeFollow noFault bobId annId (atRest sampleDb)).2))).1
        = Resolved (Some cb) ∧ S (followerCount cb) = 1.
Proof.
  assert (catId ≠ annId) as Hne by discriminate.
  assert (bobId ≠ annId) as Hne' by discriminate.
  split.
  - destruct (counts_follow_edges noFault catId annId cat ann sampleDb
                Hne eq_refl eq_refl eq_refl) as [Hf _].
    apply Hf. apply noEdgeb_sound. vm_compute. reflexivity.
  - destruct (counts_follow_edges noFault bobId annId bob ann sampleDb
                Hne' eq_refl eq_refl eq_refl) as [_ Hu].
    destruct Hu as (cb & ca & Hb & _ & Hn & _).
    + apply list_elem_of_In. simpl. auto.
    + apply list_elem_of_In. simpl. auto.
    + apply NoDup_singleton.
    + apply NoDup_singleton.
    + exists cb. split; [exact Hb | exact Hn].
Defined.

Lemma isFollowing_spec_witness :
  noFault FindOne = false ∧
  ∃ r, (isFollowing noFault bobId zedId (atRest sampleDb)).1 = Resolved r ∧
       r = false.
Proof.
  split; [reflexivity|].
  destruct (isFollowing_spec noFault bobId zedId sampleDb eq_refl)
    as (r & Hr & _ & Hmiss & _).
  exists r. split; [exact Hr|]. apply Hmiss. reflexivity.
Defined.

Lemma isFollowing_tracks_writes_witness :
  (isFollowing noFault catId annId
     (atRest (committed (followUser noFault catId annId (atRest sampleDb)).2))).1
  = Resolved true ∧
  (isFollowing noFault bobId annId
     (atRest (committed (removeFollow noFault bobId annId (atRest sampleDb)).2))).1
  = Resolved false.
Proof.
  split.
  - apply (isFollowing_tracks_writes noFault noFault catId annId sampleDb
             eq_refl); [reflexivity|]. by exists ann.
  - apply (isFollowing_tracks_writes noFault noFault bobId annId sampleDb
             eq_refl). reflexivity.
Defined.

Lemma lists_hold_the_resolving_ids_witness :
  danglingDb !! annId = Some (mkUserDoc "Ann" None [bobId] [zedId]) ∧
  ∃ lers ling,
    (findFollowers noFault annId (atRest danglingDb)).1 = Resolved lers ∧
    (findFollowing noFault annId (atRest danglingDb)).1 = Resolved ling ∧
    (bobId ∈ fu_id <$> lers) ∧ (zedId ∉ fu_id <$> ling).
Proof.
  split; [reflexivity|].
  destruct (lists_hold_the_resolving_ids noFault annId _ danglingDb
              eq_refl eq_refl eq_refl)
    as (lers & ling & H1 & H2 & _ & _ & E1 & E2 & _).
  exists lers, ling. split; [exact H1|]. split; [exact H2|]. split.
  - apply E1. split; [apply list_elem_of_In; simpl; auto | by exists bob].
  - intros [_ [d Hd]]%E2. vm_compute in Hd. discriminate Hd.
Defined.

Lemma lists_shorter_than_counts_witness :
  ∃ ling c,
    (findFollowing noFault annId (atRest danglingDb)).1 = Resolved ling ∧
    (getFollowCounts noFault annId (atRest danglingDb)).1 = Resolved (Some c) ∧
    length ling = 0 ∧ followingCount c = 1.
Proof.
  destruct (lists_shorter_than_counts annId
              (mkUserDoc "Ann" None [bobId] [zedId]) danglingDb eq_refl)
    as (lers & ling & c & _ & H2 & H3 & _ & L2 & _).
  - apply NoDup_singleton.
  - apply NoDup_singleton.
  - exists ling, c. split; [exact H2|]. split; [exact H3|]. split.
    + rewrite L2. reflexivity.
    + vm_compute in H3. by injection H3 as <-.
Defined.

Lemma lists_short_circuit_witness :
  (findFollowers (λ c, bool_decide (c = Find)) catId (atRest sampleDb)).1
  = Resolved [] ∧
  calls (findFollowing (λ c, bool_decide (c = Find)) zedId (atRest sampleDb)).2
  = [FindById].
Proof.
  assert (bool_decide (FindById = Find) = false) as Ht by reflexivity.
  destruct (lists_short_circuit (λ c, bool_decide (c = Find)) catId sampleDb
              Ht) as [H1 _].
  destruct (lists_short_circuit (λ c, bool_decide (c = Find)) zedId sampleDb
              Ht) as [_ H2].
  split.
  - apply H1. right. by exists cat.
  - apply H2. by left.
Defined.

Lemma deleteById_leaves_references_witness :
  let db' := stored (deleteById (λ _, false) annId sampleDb) in
  db' !! bobId = Some bob ∧
  (getFollowCounts noFault bobId (atRest db')).1
    = Resolved (Some (mkFollowCount 0 1)) ∧
  (findFollowing noFault bobId (atRest db')).1 = Resolved [] ∧
  (isFollowing noFault bobId annId (atRest db')).1 = Resolved false.
Proof.
  assert (bobId ≠ annId) as Hne by discriminate.
  assert (annId ∈ following bob) as Hin
    by (apply list_elem_of_In; simpl; auto).
  destruct (deleteById_leaves_references (λ _, false) bobId annId bob sampleDb
              eq_refl Hne eq_refl Hin) as (Hb & Hc & _ & Hf & _).
  cbv zeta. split; [exact Hb|]. split; [|split; [reflexivity|exact Hf]].
  rewrite Hc. reflexivity.
Defined.

Lemma failed_init_poisons_instance_witness :
  firstConnectFails 0 = false ∧ firstConnectFails 1 = true ∧
  (Server.serve firstConnectFails sampleApp ["/a"; "/b"; "/c"] Server.fresh).1
  = [Server.InternalServerError; Server.InternalServerError;
     Server.InternalServerError].
Proof.
  split; [reflexivity|]. split; [reflexivity|].
  destruct (failed_init_poisons_instance firstConnectFails sampleApp
              ["/a"; "/b"; "/c"] eq_refl) as (H & _).
  exact H.
Defined.

Lemma initialised_instance_forwards_witness :
  (Server.serve (λ _, true) sampleApp ["/a"; "/boom"; "/c"] Server.fresh).1
  = [Server.Handled "200 /a"; Server.InternalServerError;
     Server.Handled "200 /c"].
Proof.
  destruct (initialised_instance_forwards (λ _, true) sampleApp "/a"
              ["/boom"; "/c"] eq_refl) as (H & _).
  exact H.
Defined.

Lemma deleteById_spec_witness :
  answer (deleteById (λ _, false) annId sampleDb) = true ∧
  answer (deleteById (λ _, false) zedId sampleDb) = false ∧
  answer (deleteById (λ _, true) annId sampleDb) = false ∧
  answer (deleteById (λ _, false) annId
            (stored (deleteById (λ _, false) annId sampleDb))) = false.
Proof.
  destruct (deleteById_spec (λ _, false) annId sampleDb) as (H1 & _ & H3).
  destruct (H3 eq_refl) as (_ & _ & _ & H4).
  split; [apply H1; split; [reflexivity|by exists ann]|].
  split; [reflexivity|]. split; [reflexivity|]. apply H4.
Defined.

Lemma updateAccountById_spec_witness :
  answer (updateAccountById (λ _, false) string setFullName annId "Anna"
            sampleDb) = Some "Anna" ∧
  stored (updateAccountById (λ _, false) string setFullName annId "Anna"
            sampleDb) !! annId = Some (mkUserDoc "Anna" None [bobId] []) ∧
  answer (updateAccountById (λ _, false) string setFullName zedId "Zed"
            sampleDb) = None ∧
  stored (updateAccountById (λ _, false) string setFullName zedId "Zed"
            sampleDb) = sampleDb.
Proof.
  destruct (updateAccountById_spec setFullName (λ _, false) annId "Anna"
              sampleDb) as (H1 & _ & _ & _ & _ & H6).
  destruct (updateAccountById_spec setFullName (λ _, false) zedId "Zed"
              sampleDb) as (_ & _ & H3 & _).
  assert (answer (updateAccountById (λ _, false) string setFullName annId
                    "Anna" sampleDb) = Some "Anna") as Ha
    by (apply H1; split; [reflexivity|by exists ann]).
  split; [exact Ha|]. split; [exact (H6 ann Ha eq_refl)|].
  split; [reflexivity|]. apply H3. reflexivity.
Defined.


Lemma authorization_method_case_witness :
  Auth.authorizeUserAction Auth.defaultMessage
    (Auth.mkRequest (Some (Auth.mkAuthUser "a1" Auth.ADMIN)) (Some "a1")
       (Some "delete"))
  = Auth.Throw (Auth.mkApiError "Action not allowed on yourself" 403
                  Auth.PERMISSION_DENIED).
Proof.
  destruct (authorization_method_case Auth.defaultMessage None None "x"
              (Auth.mkAuthUser "a1" Auth.ADMIN)) as [_ H].
  apply H; [reflexivity|discriminate].
Defined.
